(** * The docker executor of the box image builder

    A shallow embedding of [builder/executor/docker/docker.go]: the cache
    lookup, the container lifecycle around [Commit], the run hook and the
    hand-built image archive of [CopyToContainer].

    Go's [error] is modelled by its text; a [nil] error is [None].  The
    container engine reached through [d.client] is an external service: it
    is modelled by a small state ([World]) together with a plan of the
    failures it answers with ([Faults]), so that every [if err != nil]
    branch of the source can be taken. *)

From Stdlib Require Import ZArith Ascii String.
From stdpp Require Import base option list strings gmap pretty.

Local Set Warnings "-register-all".
Local Open Scope Z_scope.

Definition error := string.

(** ** Small pieces of Go's standard library *)

Definition CR : ascii := "013"%char.
Definition LF : ascii := "010"%char.

(** [bytes.Split(content, []byte("\r\n"))]: the pieces between the
    non-overlapping occurrences of CR LF, taken from the left; [n]
    separators give [n + 1] pieces, so the empty input gives one empty
    piece. *)
Fixpoint split_crlf (s : string) : list string :=
  match s with
  | EmptyString => [EmptyString]
  | String c rest =>
      let keep :=
        match split_crlf rest with
        | piece :: pieces => String c piece :: pieces
        | [] => [String c EmptyString]
        end in
      match rest with
      | String c' rest' =>
          if bool_decide (c = CR) && bool_decide (c' = LF)
          then EmptyString :: split_crlf rest'
          else keep
      | EmptyString => keep
      end
  end.

(** The values [encoding/json] decodes into [interface{}]; numbers are
    kept as integers. *)
Inductive JSON : Type :=
  | JNull
  | JBool (b : bool)
  | JNumber (n : Z)
  | JString (s : string)
  | JArray (items : list JSON)
  | JObject (members : list (string * JSON)).

Fixpoint join (sep : string) (parts : list string) : string :=
  match parts with
  | [] => EmptyString
  | [p] => p
  | p :: rest => p +:+ sep +:+ join sep rest
  end.

(** ** archive/tar: the writer

    A [Writer] owes [nb] bytes to the member whose header was written last.
    [WriteHeader] refuses to start a member while bytes are owed, [Write]
    cuts what exceeds the declared size and reports it.  The modification,
    access and change times of a header ([time.Now()]) are left out. *)
Module tar.

Record Header := mkHeader {
  Name : string;
  Linkname : string;
  Size : Z;
  Mode : Z;
  Uname : string;
  Gname : string;
  Typeflag : ascii
}.

Definition TypeReg : ascii := "0"%char.

Record Member := mkMember { header : Header; payload : string }.

Record Writer := mkWriter {
  members : list Member;
  nb : Z;
  err : option error;
  closed : bool
}.

Definition NewWriter : Writer := mkWriter [] 0 None false.

Definition ErrWriteTooLong : error := "archive/tar: write too long".
Definition ErrWriteAfterClose : error := "archive/tar: write after close".
Definition missed (n : Z) : error := "archive/tar: missed writing " +:+ pretty n +:+ " bytes".

Definition Flush (tw : Writer) : Writer :=
  if 0 <? nb tw then mkWriter (members tw) (nb tw) (Some (missed (nb tw))) (closed tw)
  else tw.

Definition WriteHeader (tw : Writer) (hdr : Header) : option error * Writer :=
  if closed tw then (Some ErrWriteAfterClose, tw)
  else
    let tw := match err tw with None => Flush tw | Some _ => tw end in
    match err tw with
    | Some e => (Some e, tw)
    | None => (None, mkWriter (members tw ++ [mkMember hdr EmptyString]) (Size hdr) None false)
    end.

Fixpoint append_last (ms : list Member) (b : string) : list Member :=
  match ms with
  | [] => []
  | [m] => [mkMember (header m) (payload m +:+ b)]
  | m :: rest => m :: append_last rest b
  end.

Definition Write (tw : Writer) (b : string) : option error * Writer :=
  if closed tw then (Some ErrWriteAfterClose, tw)
  else
    let overwrite := nb tw <? Z.of_nat (String.length b) in
    let b := if overwrite then substring 0 (Z.to_nat (nb tw)) b else b in
    let ms := append_last (members tw) b in
    let left := nb tw - Z.of_nat (String.length b) in
    if overwrite then (Some ErrWriteTooLong, mkWriter ms left (err tw) false)
    else (None, mkWriter ms left None false).

Definition Close (tw : Writer) : option error * Writer :=
  if closed tw then (None, tw)
  else
    let tw := Flush tw in
    (err tw, mkWriter (members tw) (nb tw) (err tw) true).

End tar.

(** ** Panics, readers and the terminal output *)

(** The end of a call that may panic instead of returning. *)
Inductive Outcome (A : Type) : Type :=
  | Returns (a : A)
  | Panics (msg : string).
Arguments Returns {A} a.
Arguments Panics {A} msg.

(** An [io.Reader]: the bytes it yields, and the error it ends with when
    it does not end with [io.EOF]. *)
Record Reader := mkReader { bytes : string; read_error : option error }.

(** [ioutil.ReadAll]. *)
Definition ReadAll (r : Reader) : error + string :=
  match read_error r with
  | Some e => inl e
  | None => inr (bytes r)
  end.

(** The lines [bufio.Reader.ReadBytes] delivers with a nil error, each with
    its newline, and the bytes after the last newline. *)
Fixpoint read_lines (s : string) : list string * string :=
  match s with
  | EmptyString => ([], EmptyString)
  | String c rest =>
      let '(lines, tail) := read_lines rest in
      if bool_decide (c = LF) then (String LF EmptyString :: lines, tail)
      else
        match lines with
        | line :: lines' => (String c line :: lines', tail)
        | [] => ([], String c tail)
        end
  end.

(** What [printPull] writes to the terminal, call by call: the empty line
    of [fmt.Println()], the cursor-up sequence [ESC [ n A], and a row
    [CR ESC [ K text LF]. *)
Inductive Print : Type :=
  | Newline
  | CursorUp (n : nat)
  | Row (text : string).

Definition ESC : ascii := "027"%char.

(** The bytes of one call. *)
Definition render (p : Print) : string :=
  match p with
  | Newline => String LF EmptyString
  | CursorUp n => String ESC ("[" +:+ pretty n +:+ "A")
  | Row text => String CR (String ESC ("[K" +:+ text +:+ String LF EmptyString))
  end.

(** ** path/filepath, on a system whose separator is the slash *)
Module filepath.

Definition is_sep (c : ascii) : bool := bool_decide (c = "/"%char).

(** [strings.Split] at one character: the pieces between its occurrences. *)
Fixpoint split_at (sep : ascii) (s : string) : list string :=
  match s with
  | EmptyString => [EmptyString]
  | String c rest =>
      if bool_decide (c = sep) then EmptyString :: split_at sep rest
      else
        match split_at sep rest with
        | piece :: pieces => String c piece :: pieces
        | [] => [String c EmptyString]
        end
  end.

Definition IsAbs (path : string) : bool :=
  match path with
  | String c _ => is_sep c
  | EmptyString => false
  end.

(** [SplitList]: the elements of a list of paths joined by colons. *)
Definition SplitList (path : string) : list string :=
  if decide (path = EmptyString) then [] else split_at ":"%char path.

(** One element of a path in [Clean]: empty elements and [.] are dropped,
    [..] removes the element before it unless there is none or it is a
    [..] itself (then it is kept in a relative path and dropped in a
    rooted one), anything else is kept. *)
Definition clean_step (rooted : bool) (out : list string) (elem : string) : list string :=
  if decide (elem = EmptyString) then out
  else if decide (elem = ".") then out
  else if decide (elem = "..") then
    match last out with
    | Some top => if decide (top = "..") then out ++ [".."] else removelast out
    | None => if rooted then out else out ++ [".."]
    end
  else out ++ [elem].

(** An element that [Clean] keeps in a rooted path. *)
Definition normal (elem : string) : Prop :=
  elem <> EmptyString /\ elem <> "." /\ elem <> ".." /\
  "/"%char ∉ list_ascii_of_string elem.

Definition clean_elems (rooted : bool) (path : string) : list string :=
  foldl (clean_step rooted) [] (split_at "/"%char path).

Definition Clean (path : string) : string :=
  let out := join "/" (clean_elems (IsAbs path) path) in
  let out := if IsAbs path then String "/"%char out else out in
  if decide (out = EmptyString) then "." else out.

(** [Join]: the elements from the first non-empty one on, joined by
    slashes and cleaned. *)
Fixpoint Join (elem : list string) : string :=
  match elem with
  | [] => EmptyString
  | e :: rest => if decide (e = EmptyString) then Join rest else Clean (join "/" elem)
  end.

Definition chars (s : string) : list ascii := list_ascii_of_string s.

Fixpoint drop_seps (l : list ascii) : list ascii :=
  match l with
  | c :: rest => if is_sep c then drop_seps rest else l
  | [] => []
  end.

Fixpoint take_elem (l : list ascii) : list ascii :=
  match l with
  | c :: rest => if is_sep c then [] else c :: take_elem rest
  | [] => []
  end.

(** [Base]: the last element of the path, trailing slashes apart. *)
Definition Base (path : string) : string :=
  if decide (path = EmptyString) then "."
  else
    match take_elem (drop_seps (rev (chars path))) with
    | [] => "/"
    | elem => string_of_list_ascii (rev elem)
    end.

Fixpoint drop_elem (l : list ascii) : list ascii :=
  match l with
  | c :: rest => if is_sep c then l else drop_elem rest
  | [] => []
  end.

(** [Dir]: all but the last element of the path, cleaned. *)
Definition Dir (path : string) : string :=
  Clean (string_of_list_ascii (rev (drop_elem (rev (chars path))))).

End filepath.

Section Executor.

(** ** What the model takes from outside the modelled files

    [config.Config] (package builder/config) and the engine's API types are
    declared outside the modelled source: the configuration is a record
    with the [Image] field the executor reads and writes, the rest of it
    being [Settings]; its conversions are parameters.  So are the string
    encoders of Go's standard library. *)
Context {Settings ContainerConfig ImageSpec : Type}.

Record Config := mkConfig { Image : string; settings : Settings }.

Variable ToDocker : Config -> bool -> bool -> ContainerConfig.
Variable FromDocker : Config -> ContainerConfig -> Config.
Variable ToImage : Config -> list string -> ImageSpec.
(** The [Image] field of the engine's container configuration. *)
Variable cc_image : ContainerConfig -> string.
(** [strconv.Quote], the rendering of [%q]. *)
Variable strconv_Quote : string -> string.
(** The JSON string literal [encoding/json] writes for a Go string. *)
Variable json_string : string -> string.
(** [json.Marshal] of the image description built by [ToImage]. *)
Variable json_Marshal_image : ImageSpec -> error + string.
(** [json.Unmarshal] into a [map[string]interface{}]. *)
Variable json_Unmarshal : string -> error + gmap string JSON.

(** [json.Marshal] on values built from strings, slices and maps.  A map
    is written with its keys sorted; the members of [JObject] are listed in
    that order. *)
Fixpoint json_Marshal (j : JSON) : string :=
  match j with
  | JNull => "null"
  | JBool b => if b then "true" else "false"
  | JNumber n => pretty n
  | JString s => json_string s
  | JArray items => "[" +:+ join "," (map json_Marshal items) +:+ "]"
  | JObject members =>
      "{" +:+ join "," (map (fun kv => json_string (fst kv) +:+ ":" +:+ json_Marshal (snd kv)) members) +:+ "}"
  end.

(** ** The engine *)

(** A container of the engine, as far as the calls of the executor read
    it back: its configuration.  Whether it runs, and what its process
    does, leave no trace here. *)
Record Container := mkContainer { ctr_config : ContainerConfig }.

Record ImageRecord := mkImageRecord {
  img_id : string;
  img_parent : string;
  img_comment : string;
  img_config : ContainerConfig
}.

(** The state outside the process: the engine's containers and images, a
    counter the engine and the operating system draw fresh names from, the
    files of the local file system, and the mode of the local terminal with
    the number of times it was restored. *)
Record World := mkWorld {
  containers : gmap string Container;
  images : list ImageRecord;
  serial : nat;
  files : gmap string string;
  term_raw : bool;
  term_restores : nat
}.

(** The failures the engine answers with, per call. *)
Record Faults := mkFaults {
  create_fault : option error;
  commit_fault : option error;
  remove_fault : option error;
  force_fault : option error;
  list_fault : option error;
  inspect_fault : string -> option error
}.

Definition set_containers (w : World) (c : gmap string Container) : World :=
  mkWorld c (images w) (serial w) (files w) (term_raw w) (term_restores w).

Definition set_files (w : World) (f : gmap string string) : World :=
  mkWorld (containers w) (images w) (serial w) f (term_raw w) (term_restores w).

Definition bump (w : World) : World :=
  mkWorld (containers w) (images w) (S (serial w)) (files w) (term_raw w) (term_restores w).

(** The engine stores an image.  The place in the list is the place in
    the listing of this model only: the engine promises no order. *)
Definition add_image (w : World) (r : ImageRecord) : World :=
  mkWorld (containers w) (r :: images w) (serial w) (files w) (term_raw w) (term_restores w).

Definition no_such_container (id : string) : error := "No such container: " +:+ id.
Definition no_such_image (id : string) : error := "No such image: " +:+ id.

(** [client.ContainerCreate]. *)
Definition ContainerCreate (F : Faults) (w : World) (cfg : ContainerConfig)
  : (string * option error) * World :=
  match create_fault F with
  | Some e => ((EmptyString, Some e), w)
  | None =>
      let id := "container-" +:+ pretty (serial w) in
      ((id, None), bump (set_containers w (<[id := mkContainer cfg]> (containers w))))
  end.

(** [client.ContainerCommit]: the new image records the comment and the
    configuration it is given, and has the container's image as parent. *)
Definition ContainerCommit (F : Faults) (w : World) (id : string)
    (cfg : ContainerConfig) (comment : string) : (string * option error) * World :=
  match commit_fault F with
  | Some e => ((EmptyString, Some e), w)
  | None =>
      match containers w !! id with
      | None => ((EmptyString, Some (no_such_container id)), w)
      | Some c =>
          let iid := "image-" +:+ pretty (serial w) in
          ((iid, None),
           bump (add_image w (mkImageRecord iid (cc_image (ctr_config c)) comment cfg)))
      end
  end.

(** [client.ContainerRemove]; [force] is the [Force] option.  The engine
    answers a removal of a container it does not have with an error. *)
Definition ContainerRemove (F : Faults) (w : World) (id : string) (force : bool)
  : option error * World :=
  match (if force then force_fault F else remove_fault F) with
  | Some e => (Some e, w)
  | None =>
      match containers w !! id with
      | None => (Some (no_such_container id), w)
      | Some _ => (None, set_containers w (delete id (containers w)))
      end
  end.

(** [types.ImageSummary] and [types.ImageInspect], the fields that are read. *)
Record ImageSummary := mkImageSummary { ID : string; ParentID : string }.
Record ImageInspect := mkImageInspect {
  inspect_ID : string;
  Comment : string;
  inspect_Config : ContainerConfig
}.

(** [client.ImageList] with [All: true]. *)
Definition ImageList (F : Faults) (w : World) : error + list ImageSummary :=
  match list_fault F with
  | Some e => inl e
  | None => inr (map (fun r => mkImageSummary (img_id r) (img_parent r)) (images w))
  end.

(** [client.ImageInspectWithRaw]. *)
Definition ImageInspectWithRaw (F : Faults) (w : World) (id : string) : error + ImageInspect :=
  match inspect_fault F id with
  | Some e => inl e
  | None =>
      match find (fun r => bool_decide (img_id r = id)) (images w) with
      | None => inl (no_such_image id)
      | Some r => inr (mkImageInspect (img_id r) (img_comment r) (img_config r))
      end
  end.

(** ** The executor *)

Record Docker := mkDocker {
  config : Config;
  useCache : bool;
  tty : bool;
  stdin : bool
}.

Definition set_config (d : Docker) (c : Config) : Docker :=
  mkDocker c (useCache d) (tty d) (stdin d).

Definition set_Image (c : Config) (image : string) : Config :=
  mkConfig image (settings c).

(** [Docker.Create]. *)
Definition Create (F : Faults) (d : Docker) (w : World) : (string * option error) * World :=
  ContainerCreate F w (ToDocker (config d) (tty d) (stdin d)).

(** [Docker.Destroy]. *)
Definition Destroy (F : Faults) (w : World) (id : string) : option error * World :=
  ContainerRemove F w id true.

(** The [for _, img := range images] loop of [Docker.CheckCache]. *)
Fixpoint CheckCache_range (F : Faults) (w : World) (d : Docker) (cacheKey : string)
    (imgs : list ImageSummary) : (bool * option error) * Docker :=
  match imgs with
  | [] => ((false, None), d)
  | img :: rest =>
      if decide (ParentID img = Image (config d)) then
        match ImageInspectWithRaw F w (ID img) with
        | inl err => ((false, Some err), d)
        | inr inspect =>
            if decide (Comment inspect = cacheKey) then
              ((true, None),
               set_config d (set_Image (FromDocker (config d) (inspect_Config inspect)) (ID img)))
            else CheckCache_range F w d cacheKey rest
        end
      else CheckCache_range F w d cacheKey rest
  end.

(** [Docker.CheckCache]. *)
Definition CheckCache (F : Faults) (w : World) (d : Docker) (cacheKey : string)
  : (bool * option error) * Docker :=
  if negb (useCache d) then ((false, None), d)
  else if decide (Image (config d) <> EmptyString) then
    match ImageList F w with
    | inl err => ((false, Some err), d)
    | inr imgs => CheckCache_range F w d cacheKey imgs
    end
  else ((false, None), d).

(** [executor.Hook]: it receives the container id and works on the state
    outside the process; it has no access to the executor's fields. *)
Definition Hook := string -> World -> (string * option error) * World.

(** The [if hook != nil] block of [Docker.Commit]: the error of the hook,
    or the cache key to commit under. *)
Definition Commit_hook (hook : option Hook) (id cacheKey : string) (w : World)
  : (error + string) * World :=
  match hook with
  | None => (inr cacheKey, w)
  | Some h =>
      let '((tmp, err), w') := h id w in
      match err with
      | Some e => (inl e, w')
      | None => (inr (if decide (tmp <> EmptyString) then tmp else cacheKey), w')
      end
  end.

(** [Docker.Commit] between the creation of the container and its return. *)
Definition Commit_body (F : Faults) (d : Docker) (w : World) (id cacheKey : string)
    (hook : option Hook) : (option error * Docker) * World :=
  match Commit_hook hook id cacheKey w with
  | (inl e, w) => ((Some e, d), w)
  | (inr cacheKey, w) =>
      let '((commitResp, err), w) :=
        ContainerCommit F w id (ToDocker (config d) (tty d) (stdin d)) cacheKey in
      match err with
      | Some e => ((Some ("Error during commit: " +:+ e), d), w)
      | None =>
          let '(err, w) := ContainerRemove F w id false in
          match err with
          | Some e =>
              ((Some ("Could not remove intermediate container " +:+ strconv_Quote id
                      +:+ ": " +:+ e), d), w)
          | None => ((None, set_config d (set_Image (config d) commitResp)), w)
          end
      end
  end.

(** [Docker.Commit], in a run in which no interrupt is delivered: the
    listener started after [Create] stays blocked on its channel until the
    deferred function closes it.  The deferred function calls [Destroy] and
    drops its result. *)
Definition Commit (F : Faults) (d : Docker) (w : World) (cacheKey : string)
    (hook : option Hook) : (option error * Docker) * World :=
  let '((id, err), w) := Create F d w in
  match err with
  | Some e => ((Some e, d), w)
  | None =>
      let '(r, w) := Commit_body F d w id cacheKey hook in
      (r, snd (Destroy F w id))
  end.

(** What the engine and the terminal answer during one [RunHook]:
    [ContainerAttach], [term.SetRawTerminal], [ContainerStart], and
    [ContainerWait], which ends with an error (the engine fails the wait,
    or the signal listener cancels it) or with the exit status of the
    process. *)
Record RunEnv := mkRunEnv {
  attach_result : option error;
  raw_result : option error;
  start_result : option error;
  wait_result : error + Z
}.

Definition set_term (w : World) (raw : bool) (restores : nat) : World :=
  mkWorld (containers w) (images w) (serial w) (files w) raw restores.

(** [term.RestoreTerminal(0, state)]: [state] is the mode saved by
    [SetRawTerminal]. *)
Definition RestoreTerminal (w : World) (state : bool) : World :=
  set_term w state (S (term_restores w)).

(** [Docker.RunHook] from [ContainerStart] on. *)
Definition RunHook_started (E : RunEnv) (id : string) : string * option error :=
  match start_result E with
  | Some e => (EmptyString, Some ("Could not start container: " +:+ e))
  | None =>
      match wait_result E with
      | inl e => (EmptyString, Some e)
      | inr stat =>
          if decide (stat <> 0) then
            (EmptyString,
             Some ("Command exited with status " +:+ pretty stat +:+ " for container "
                   +:+ strconv_Quote id))
          else (EmptyString, None)
      end
  end.

(** [Docker.RunHook], for the runs that return.  The copy loops and the
    signal listener it starts act on the caller through the outcome of
    [ContainerWait].  A run in which a copy loop reports an error on
    [errChan] does not return: the goroutine that receives the error and
    the deferred [close(stopChan)] close the same channel, which is a
    panic; such runs are not described here. *)
Definition RunHook (E : RunEnv) (d : Docker) : Hook := fun id w =>
  match attach_result E with
  | Some e => ((EmptyString, Some ("Could not attach to container: " +:+ e)), w)
  | None =>
      if stdin d then
        match raw_result E with
        | Some e =>
            ((EmptyString, Some ("Could not attach terminal to container: " +:+ e)), w)
        | None =>
            let state := term_raw w in
            let w := set_term w true (term_restores w) in
            (RunHook_started E id, RestoreTerminal w state)
        end
      else (RunHook_started E id, w)
  end.

(** What the operating system and the engine answer during one
    [CopyToContainer]: [ioutil.TempFile], [io.Copy] into the spool file,
    the error result of [ImageImport], and [ioutil.ReadAll] of its
    response. *)
Record BuildEnv := mkBuildEnv {
  tempfile_fault : option error;
  spool_fault : option error;
  import_transport : option error;
  import_body : error + string
}.

(** The [for _, line := range lines] loop of the import goroutine. *)
Fixpoint import_lines (lines : list string) : option error :=
  match lines with
  | [] => None
  | line :: rest =>
      match json_Unmarshal line with
      | inl e => Some e
      | inr result =>
          match result !! "error" with
          | Some (JString res) => Some res
          | _ => import_lines rest
          end
      end
  end.

(** The value the import goroutine sends on [errChan]. *)
Definition import_result (B : BuildEnv) : option error :=
  match import_transport B with
  | Some e => Some e
  | None =>
      match import_body B with
      | inl e => Some e
      | inr content => import_lines (split_crlf content)
      end
  end.

Definition jsonFile (copyID : string) : string := copyID +:+ ".json".
Definition tarFile (copyID : string) : string := copyID +:+ "/layer.tar".

Definition repos (copyID : string) : JSON :=
  JObject [(copyID, JObject [("latest", JString copyID)])].

Definition manifest (copyID : string) : JSON :=
  JArray [JObject [("Config", JString (jsonFile copyID));
                   ("Layers", JArray [JString (tarFile copyID)]);
                   ("RepoTags", JArray [JString copyID])]].

Definition member_header (name : string) (content : string) : tar.Header :=
  tar.mkHeader name name (Z.of_nat (String.length content)) 438 "root" "root" tar.TypeReg.

(** [WriteHeader] followed by [Write], with the two error returns. *)
Definition write_member (tw : tar.Writer) (name content : string) : option error * tar.Writer :=
  let '(err, tw) := tar.WriteHeader tw (member_header name content) in
  match err with
  | Some e => (Some e, tw)
  | None => tar.Write tw content
  end.

(** [CopyToContainer] from [tar.NewWriter(w)] to the receive on [errChan]:
    the three members, then the result of the import. *)
Definition write_archive (B : BuildEnv) (d : Docker) (copyID : string)
  : option error * tar.Writer :=
  let imgwriter := tar.NewWriter in
  match json_Marshal_image (ToImage (config d) [copyID]) with
  | inl e => (Some e, imgwriter)
  | inr content =>
      let '(err, imgwriter) := write_member imgwriter (jsonFile copyID) content in
      match err with
      | Some e => (Some e, imgwriter)
      | None =>
          let '(err, imgwriter) :=
            write_member imgwriter "repositories" (json_Marshal (repos copyID)) in
          match err with
          | Some e => (Some e, imgwriter)
          | None =>
              let '(err, imgwriter) :=
                write_member imgwriter "manifest.json" (json_Marshal (manifest copyID)) in
              match err with
              | Some e => (Some e, imgwriter)
              | None => (import_result B, snd (tar.Close imgwriter))
              end
          end
      end
  end.

Definition spool_name (w : World) : string := "/tmp/box-temporary-layer" +:+ pretty (serial w).

(** [Docker.CopyToContainer].  The result carries the archive written
    through [imgwriter].  The spool file is created, filled from the
    content stream [tw] and removed by the deferred [os.Remove].  Of the
    two helper goroutines (the copy of the pipe into the file [test] and
    to the standard output, and the import) the model keeps what reaches
    the caller, the value received from [errChan]; which of them reads
    which bytes of the pipe, the file [test], and the image a successful
    import adds to the engine are left out. *)
Definition CopyToContainer (B : BuildEnv) (d : Docker) (w : World)
    (id : string) (size : Z) (tw : string) : ((option error * Docker) * World) * tar.Writer :=
  match tempfile_fault B with
  | Some e => (((Some e, d), w), tar.NewWriter)
  | None =>
      let tf := spool_name w in
      let w := bump (set_files w (<[tf := EmptyString]> (files w))) in
      let removed := set_files w (delete tf (files w)) in
      match spool_fault B with
      | Some e => (((Some e, d), removed), tar.NewWriter)
      | None =>
          let w := set_files w (<[tf := tw]> (files w)) in
          let removed := set_files w (delete tf (files w)) in
          let '(err, archive) := write_archive B d id in
          match err with
          | Some e => (((Some e, d), removed), archive)
          | None => (((None, set_config d (set_Image (config d) id)), removed), archive)
          end
      end
  end.

(** ** What the properties are stated with *)

(** An image of the listing matches the key when its parent is the
    resulting image and the engine reports the key as its comment. *)
Definition cache_match (F : Faults) (w : World) (d : Docker) (cacheKey : string)
    (img : ImageSummary) (inspect : ImageInspect) : Prop :=
  ParentID img = Image (config d) /\
  ImageInspectWithRaw F w (ID img) = inr inspect /\
  Comment inspect = cacheKey.

(** The engine answers the listing with [imgs] and every inspection the
    lookup can ask for. *)
Definition engine_answers (F : Faults) (w : World) (d : Docker)
    (imgs : list ImageSummary) : Prop :=
  ImageList F w = inr imgs /\
  forall img, img ∈ imgs -> ParentID img = Image (config d) ->
    exists inspect, ImageInspectWithRaw F w (ID img) = inr inspect.

(** The images the loop of the lookup goes past: those of them whose
    parent is the resulting image are inspected without error and carry
    another comment than the key. *)
Definition passed_over (F : Faults) (w : World) (d : Docker) (cacheKey : string)
    (imgs : list ImageSummary) : Prop :=
  forall img, img ∈ imgs -> ParentID img = Image (config d) ->
    exists inspect, ImageInspectWithRaw F w (ID img) = inr inspect /\
      Comment inspect <> cacheKey.

(** The engine fails the lookup with [e]: it does not answer the listing,
    or it does not answer the inspection of a listed image whose parent is
    the resulting image, the loop having gone past the images listed
    before it. *)
Definition engine_fails (F : Faults) (w : World) (d : Docker) (cacheKey : string)
    (e : error) : Prop :=
  ImageList F w = inl e \/
  exists imgs l1 img l2,
    ImageList F w = inr imgs /\ imgs = l1 ++ img :: l2 /\
    passed_over F w d cacheKey l1 /\
    ParentID img = Image (config d) /\ ImageInspectWithRaw F w (ID img) = inl e.

(** The executor after a hit on [img]. *)
Definition adopt (d : Docker) (img : ImageSummary) (inspect : ImageInspect) : Docker :=
  set_config d (set_Image (FromDocker (config d) (inspect_Config inspect)) (ID img)).

(** What the hook of a [Commit] answers; no hook answers like a hook that
    succeeds without a key of its own. *)
Definition hook_outcome (hook : option Hook) (id : string) (w : World)
  : (string * option error) * World :=
  match hook with
  | Some h => h id w
  | None => ((EmptyString, None), w)
  end.

(** The key the image is committed under. *)
Definition effective_key (tmp cacheKey : string) : string :=
  if decide (tmp <> EmptyString) then tmp else cacheKey.

(** The error [RunHook] reports for the exit status [stat]. *)
Definition exit_error (stat : Z) (id : string) : error :=
  "Command exited with status " +:+ pretty stat +:+ " for container " +:+ strconv_Quote id.

Definition member_of (name content : string) : tar.Member :=
  tar.mkMember (member_header name content) content.

(** The archive of a completed [CopyToContainer]. *)
Definition image_archive (copyID content : string) : list tar.Member :=
  [ member_of (jsonFile copyID) content;
    member_of "repositories" (json_Marshal (repos copyID));
    member_of "manifest.json" (json_Marshal (manifest copyID)) ].

(** A piece of the response that lets the scan go on: it decodes to an
    object without a string under ["error"]. *)
Definition passes (line : string) : Prop :=
  exists result, json_Unmarshal line = inr result /\
    forall res, result !! "error" <> Some (JString res).

(** ** The rest of the executor *)

Definition UseCache (d : Docker) (arg : bool) : Docker := mkDocker (config d) arg (tty d) (stdin d).
Definition UseTTY (d : Docker) (arg : bool) : Docker := mkDocker (config d) (useCache d) arg (stdin d).
Definition SetStdin (d : Docker) (on : bool) : Docker := mkDocker (config d) (useCache d) (tty d) on.
Definition LoadConfig (d : Docker) (c : Config) : Docker := set_config d c.

(** The table of [printPull]: per image id the status and the progress
    last reported, and the ids in the order of their first report. *)
Record PullState := mkPullState {
  idmap : gmap string (string * string);
  idlist : list string
}.

(** The [for _, id := range idlist] loop of [printPull]; indexing the
    entry of an id the table does not have is a panic. *)
Fixpoint redraw (idmap : gmap string (string * string)) (ids : list string)
  : Outcome unit * list Print :=
  match ids with
  | [] => (Returns tt, [])
  | id :: rest =>
      match idmap !! id with
      | None => (Panics "index out of range", [])
      | Some (status, progress) =>
          let '(o, out) := redraw idmap rest in
          (o, Row (id +:+ " " +:+ status +:+ " " +:+ progress) :: out)
      end
  end.

(** The body of the loop of [printPull] for one line.  The assertion
    [unpacked["status"].(string)] has no second result: it panics when the
    line has no string under [status]. *)
Definition pull_line (line : string) (st : PullState)
  : Outcome (option error * PullState) * list Print :=
  match json_Unmarshal line with
  | inl e => (Returns (Some e, st), [])
  | inr unpacked =>
      let progress :=
        match unpacked !! "progress" with
        | Some (JString p) => p
        | _ => EmptyString
        end in
      match unpacked !! "status" with
      | Some (JString status) =>
          let '(st', moved) :=
            match unpacked !! "id" with
            | Some (JString id) =>
                (mkPullState (<[id := (status, progress)]> (idmap st))
                   (match idmap st !! id with
                    | Some _ => idlist st
                    | None => idlist st ++ [id]
                    end),
                 [CursorUp (size (idmap st))])
            | _ => (st, [CursorUp (size (idmap st) + 1); Row status])
            end in
          let '(o, rows) := redraw (idmap st') (idlist st') in
          match o with
          | Returns _ => (Returns (None, st'), moved ++ rows)
          | Panics msg => (Panics msg, moved ++ rows)
          end
      | _ => (Panics "interface conversion: interface {} is not string", [])
      end
  end.

Fixpoint pull_lines (lines : list string) (st : PullState)
  : Outcome (option error * PullState) * list Print :=
  match lines with
  | [] => (Returns (None, st), [])
  | line :: rest =>
      match pull_line line st with
      | (Returns (None, st'), out) =>
          let '(o, out') := pull_lines rest st' in (o, out ++ out')
      | stopped => stopped
      end
  end.

(** [printPull]: the lines that end with a newline are handled in turn;
    what follows the last newline is read together with [io.EOF], which
    ends the loop, or with the error of the reader, which is returned. *)
Definition printPull (reader : Reader) : Outcome (option error * PullState) * list Print :=
  let '(o, out) := pull_lines (read_lines (bytes reader)).1 (mkPullState ∅ []) in
  (match o with
   | Returns (None, st) => Returns (read_error reader, st)
   | stopped => stopped
   end, Newline :: out).

(** What the engine answers to one [ImagePull]: the error of the call, or
    the progress stream, and the images it has stored by the time the
    stream is read. *)
Record PullEnv := mkPullEnv {
  pull_fault : option error;
  pull_stream : Reader;
  pull_images : list ImageRecord
}.

(** [client.ImagePull]. *)
Definition ImagePull (P : PullEnv) (w : World) (name : string) : (error + Reader) * World :=
  match pull_fault P with
  | Some e => (inl e, w)
  | None => (inr (pull_stream P), foldr (fun r w => add_image w r) w (pull_images P))
  end.

(** [Docker.Fetch].  What it writes to the standard output is left out. *)
Definition Fetch (F : Faults) (P : PullEnv) (d : Docker) (w : World) (name : string)
  : Outcome ((string * option error) * Docker) * World :=
  match ImageInspectWithRaw F w name with
  | inr inspect =>
      (Returns ((inspect_ID inspect, None),
                set_config d (FromDocker (config d) (inspect_Config inspect))), w)
  | inl _ =>
      match ImagePull P w name with
      | (inl e, w) => (Returns ((EmptyString, Some e), d), w)
      | (inr reader, w) =>
          let read : Outcome (option error) :=
            if negb (tty d) then
              Returns (match ReadAll reader with inl e => Some e | inr _ => None end)
            else
              match (printPull reader).1 with
              | Returns (e, _) => Returns e
              | Panics msg => Panics msg
              end in
          match read with
          | Panics msg => (Panics msg, w)
          | Returns (Some e) => (Returns ((EmptyString, Some e), d), w)
          | Returns None =>
              match ImageInspectWithRaw F w name with
              | inl e => (Returns ((EmptyString, Some e), d), w)
              | inr inspect =>
                  (Returns ((inspect_ID inspect, None),
                            set_config d (FromDocker (config d) (inspect_Config inspect))), w)
              end
          end
      end
  end.

(** The archive [client.CopyFromContainer] answers with, as the tar
    reader sees it: the members in order, and the error [Next] ends with
    when it does not end with [io.EOF]. *)
Record TarStream := mkTarStream {
  entries : list (string * string);
  broken : option error
}.

Record CopyEnv := mkCopyEnv {
  copy_fault : option error;
  copy_archive : TarStream
}.

(** [client.CopyFromContainer]. *)
Definition client_CopyFromContainer (C : CopyEnv) (w : World) (id path : string)
  : error + TarStream :=
  match copy_fault C with
  | Some e => inl e
  | None =>
      match containers w !! id with
      | None => inl (no_such_container id)
      | Some _ => inr (copy_archive C)
      end
  end.

(** The [for] loop of [CopyOneFileFromContainer]: the header it ends
    with, [None] being the nil header [Next] returns with [io.EOF]. *)
Fixpoint seek_header (base : string) (es : list (string * string)) (broken : option error)
  : error + option (string * string) :=
  match es with
  | [] =>
      match broken with
      | Some e => inl e
      | None => inr None
      end
  | entry :: rest =>
      if decide (entry.1 = base) then inr (Some entry) else seek_header base rest broken
  end.

(** [Docker.CopyOneFileFromContainer]. *)
Definition CopyOneFileFromContainer (F : Faults) (C : CopyEnv) (d : Docker) (w : World)
    (fn : string) : (error + string) * World :=
  let '((id, err), w) := Create F d w in
  match err with
  | Some e => (inl e, w)
  | None =>
      let r :=
        match client_CopyFromContainer C w id fn with
        | inl e => inl e
        | inr rc =>
            match seek_header (filepath.Base fn) (entries rc) (broken rc) with
            | inl e => inl e
            | inr (Some header) => inr header.2
            | inr None => inl ("Could not find " +:+ strconv_Quote fn +:+ " in container")
            end
        end in
      (r, snd (Destroy F w id))
  end.

(** What a line of the pull stream reports about an image: its id with
    the status and the progress, when the line decodes and has strings
    under [status] and [id]. *)
Definition line_report (line : string) : option (string * (string * string)) :=
  match json_Unmarshal line with
  | inl _ => None
  | inr unpacked =>
      match unpacked !! "status", unpacked !! "id" with
      | Some (JString status), Some (JString id) =>
          Some (id, (status,
                     match unpacked !! "progress" with
                     | Some (JString p) => p
                     | _ => EmptyString
                     end))
      | _, _ => None
      end
  end.

(** How many rows below the row it started in the cursor is after the
    output [out], by the counts written: a newline and a row move it one
    down, a cursor-up sequence the count it carries up. *)
Fixpoint rows_down (out : list Print) : Z :=
  match out with
  | [] => 0
  | CursorUp n :: rest => rows_down rest - Z.of_nat n
  | _ :: rest => rows_down rest + 1
  end.

(** The table after the lines that reported [reports]. *)
Definition PullInv (st : PullState) (reports : list (string * (string * string))) : Prop :=
  idmap st = list_to_map (reverse reports) /\
  idlist st = reverse (remove_dups (reverse reports.*1)) /\
  (forall id, id ∈ idlist st <-> is_Some (idmap st !! id)) /\
  size (idmap st) = length (idlist st).

Definition report_of (line : string) : list (string * (string * string)) :=
  match line_report line with
  | Some r => [r]
  | None => []
  end.

(** A line [printPull] gets past: it decodes and has a string under
    [status]. *)
Definition handled (line : string) : Prop :=
  exists unpacked status,
    json_Unmarshal line = inr unpacked /\ unpacked !! "status" = Some (JString status).

(** No prefix of [out], printed [base] rows below the start, moves the
    cursor above the start. *)
Definition never_above (base : Z) (out : list Print) : Prop :=
  forall out1 out2, out = out1 ++ out2 -> 0 <= base + rows_down out1.

End Executor.

(** * Package layer

    [layer/layer.go] and the [Filesystem] that mounts layers.  The
    operating system is modelled by the directories and files that exist,
    under their cleaned absolute names, the working directory of the
    process and the mounts made; links and permissions are left out. *)
Module layer.

Record FS := mkFS {
  nodes : gmap string bool;
  cwd : string;
  mounts : list (string * string)
}.

Definition is_dir (fs : FS) (path : string) : bool :=
  match nodes fs !! path with
  | Some true => true
  | _ => false
  end.

(** The absolute name a path stands for. *)
Definition resolve (fs : FS) (path : string) : string :=
  if filepath.IsAbs path then filepath.Clean path else filepath.Join [cwd fs; path].

(** [path] is [dir] or lies below it. *)
Definition below (dir path : string) : bool :=
  bool_decide (path = dir) || bool_decide (dir = "/") || String.prefix (dir +:+ "/") path.

(** [os.Getwd]: it fails when the working directory is gone. *)
Definition Getwd (fs : FS) : error + string :=
  if is_dir fs (cwd fs) then inr (cwd fs) else inl "getwd: no such file or directory".

(** [os.Chdir]. *)
Definition Chdir (fs : FS) (dir : string) : option error * FS :=
  match nodes fs !! resolve fs dir with
  | Some true => (None, mkFS (nodes fs) (resolve fs dir) (mounts fs))
  | Some false => (Some ("chdir " +:+ dir +:+ ": not a directory"), fs)
  | None => (Some ("chdir " +:+ dir +:+ ": no such file or directory"), fs)
  end.

(** [os.Mkdir]: the name must be free and its parent a directory. *)
Definition Mkdir (fs : FS) (name : string) : option error * FS :=
  match nodes fs !! resolve fs name with
  | Some _ => (Some ("mkdir " +:+ name +:+ ": file exists"), fs)
  | None =>
      match nodes fs !! filepath.Dir (resolve fs name) with
      | Some true => (None, mkFS (<[resolve fs name := true]> (nodes fs)) (cwd fs) (mounts fs))
      | Some false => (Some ("mkdir " +:+ name +:+ ": not a directory"), fs)
      | None => (Some ("mkdir " +:+ name +:+ ": no such file or directory"), fs)
      end
  end.

(** [os.RemoveAll]: the path and everything below it go; a path that
    does not exist is no error. *)
Definition RemoveAll (fs : FS) (path : string) : option error * FS :=
  (None,
   mkFS (filter (fun kv => negb (below (resolve fs path) kv.1)) (nodes fs)) (cwd fs) (mounts fs)).

(** [unix.Mount] of an overlay; [fault] is the error of the system call. *)
Definition unix_Mount (fault : option error) (fs : FS) (target data : string)
  : option error * FS :=
  match fault with
  | Some e => (Some e, fs)
  | None => (None, mkFS (nodes fs) (cwd fs) (mounts fs ++ [(target, data)]))
  end.

Record Layer := mkLayer { dirname : string; workingDir : string }.

(** [filepath.Abs]. *)
Definition Abs (fs : FS) (path : string) : error + string :=
  if filepath.IsAbs path then inr (filepath.Clean path)
  else
    match Getwd fs with
    | inl e => inl e
    | inr wd => inr (filepath.Join [wd; path])
    end.

Definition qualified (l : Layer) : string := filepath.Join [workingDir l; dirname l].

(** [Layer.inChdir]. *)
Definition inChdir (l : Layer) (fun_ : Layer -> FS -> option error * FS) (fs : FS)
  : option error * FS :=
  match Getwd fs with
  | inl e => (Some e, fs)
  | inr wd =>
      match Chdir fs (workingDir l) with
      | (Some e, fs) => (Some e, fs)
      | (None, fs) =>
          match fun_ l fs with
          | (Some e, fs) => (Some e, fs)
          | (None, fs) => Chdir fs wd
          end
      end
  end.

(** [Layer.Create]. *)
Definition Create (l : Layer) (fs : FS) : option error * FS :=
  inChdir l (fun l fs => Mkdir fs (qualified l)) fs.

(** [Layer.Remove]. *)
Definition Remove (l : Layer) (fs : FS) : option error * FS :=
  inChdir l (fun l fs => RemoveAll fs (qualified l)) fs.

(** The process is in an existing directory, named by its cleaned
    absolute path, as [os.Getwd] gives it. *)
Definition wf (fs : FS) : Prop :=
  filepath.IsAbs (cwd fs) = true /\ filepath.Clean (cwd fs) = cwd fs /\
  is_dir fs (cwd fs) = true.

(** The working directory of the layer is a cleaned absolute path, as
    [filepath.Abs] gives it in [New]. *)
Definition rooted (l : Layer) : Prop :=
  filepath.IsAbs (workingDir l) = true /\ filepath.Clean (workingDir l) = workingDir l.

Record Filesystem := mkFilesystem {
  Layers : list Layer;
  Mountpoint : string;
  workDir : string
}.

Section Parameters.

(** [strconv.Quote], the rendering of [%q]. *)
Variable strconv_Quote : string -> string.
(** [Layer.Exists] and [Layer.Path], which [Mount] calls and the file
    does not define. *)
Variable Exists : Layer -> FS -> bool.
Variable Path : Layer -> string.

(** [New]. *)
Definition New (fs : FS) (dirname workingDir : string) : error + Layer :=
  if decide (dirname = EmptyString) then inl "Dirname may not be empty"
  else
    match (if decide (workingDir = EmptyString) then Getwd fs else inr workingDir) with
    | inl e => inl e
    | inr workingDir =>
        if filepath.IsAbs dirname then
          inl ("Cannot use absolute path for dirname: " +:+ strconv_Quote dirname)
        else if bool_decide (".." ∈ filepath.SplitList dirname) then
          inl ("Cannot use .. in path names: " +:+ strconv_Quote dirname)
        else
          match Abs fs workingDir with
          | inl e => inl e
          | inr workingDir => inr (mkLayer dirname workingDir)
          end
    end.

(** The first loop of [Mount]: the layers that do not exist are created. *)
Fixpoint create_missing (layers : list Layer) (fs : FS) : option error * FS :=
  match layers with
  | [] => (None, fs)
  | layer :: rest =>
      if negb (Exists layer fs) then
        match Create layer fs with
        | (Some e, fs) => (Some e, fs)
        | (None, fs) => create_missing rest fs
        end
      else create_missing rest fs
  end.

(** The mount options [Mount] builds. *)
Definition mount_data (lower : list Layer) (upper : Layer) (work : string) : string :=
  "lowerdir=" +:+ join ":" (map Path lower) +:+ ",upperdir=" +:+ Path upper
  +:+ ",workdir=" +:+ work.

(** [Filesystem.Mount]; [fault] is the error of the mount system call.
    Slicing an empty list of layers up to its length less one is a panic. *)
Definition Mount (fault : option error) (f : Filesystem) (work : string) (fs : FS)
  : (Outcome (option error) * Filesystem) * FS :=
  match create_missing (Layers f) fs with
  | (Some e, fs) => ((Returns (Some e), f), fs)
  | (None, fs) =>
      if decide (length (Layers f) = 1%nat) then
        ((Returns (Some ("Minimum 2 layers for mountpoint " +:+ strconv_Quote (Mountpoint f)
                         +:+ ": got 1")), f), fs)
      else
        match last (Layers f) with
        | None => ((Panics "slice bounds out of range", f), fs)
        | Some upper =>
            let lower := removelast (Layers f) in
            if decide (work = EmptyString) then
              ((Returns (Some ("In mount of mountpoint " +:+ strconv_Quote (Mountpoint f)
                               +:+ ": workdir cannot be empty")), f), fs)
            else
              let f := mkFilesystem (Layers f) (Mountpoint f) work in
              match Mkdir fs work with
              | (Some e, fs) => ((Returns (Some e), f), fs)
              | (None, fs) =>
                  let '(err, fs) := unix_Mount fault fs (Mountpoint f) (mount_data lower upper work) in
                  ((Returns err, f), fs)
              end
        end
  end.

End Parameters.

End layer.

(** ** A concrete executor

    The parameters at simple values, to run the model on the scenarios of
    the specification: the settings are the environment, the engine's
    container configuration is the image with the environment, and the
    image description is the list of tags with the environment. *)

Definition dquote : ascii := "034"%char.
Definition backslash : ascii := "092"%char.

(** The quoted form of a string, with the double quote and the backslash
    escaped: [strconv.Quote] on printable ASCII text, and the JSON string
    literal of such text when it has no [<], [>] or [&]. *)
Fixpoint escape (s : string) : string :=
  match s with
  | EmptyString => EmptyString
  | String c rest =>
      if bool_decide (c = dquote) || bool_decide (c = backslash)
      then String backslash (String c (escape rest))
      else String c (escape rest)
  end.

Definition quote (s : string) : string :=
  String dquote (escape s +:+ String dquote EmptyString).

(** The characters of a string literal without escapes, up to its closing
    quote, and what follows it. *)
Fixpoint read_literal (s : string) : option (string * string) :=
  match s with
  | EmptyString => None
  | String c rest =>
      if bool_decide (c = dquote) then Some (EmptyString, rest)
      else if bool_decide (c = backslash) then None
      else
        match read_literal rest with
        | Some (lit, rest') => Some (String c lit, rest')
        | None => None
        end
  end.

(** The members of an object whose values are string literals, after its
    opening brace. *)
Fixpoint read_members (fuel : nat) (s : string) (acc : gmap string JSON)
  : option (gmap string JSON) :=
  match fuel, s with
  | S fuel, String q rest =>
      if bool_decide (q = dquote) then
        match read_literal rest with
        | Some (k, String colon (String q' rest')) =>
            if bool_decide (colon = ":"%char) && bool_decide (q' = dquote) then
              match read_literal rest' with
              | Some (v, String sep rest'') =>
                  if bool_decide (sep = ","%char)
                  then read_members fuel rest'' (<[k := JString v]> acc)
                  else if bool_decide (sep = "}"%char) && bool_decide (rest'' = EmptyString)
                  then Some (<[k := JString v]> acc)
                  else None
              | _ => None
              end
            else None
        | _ => None
        end
      else None
  | _, _ => None
  end.

(** [json.Unmarshal] on the empty input, on text that starts with a
    letter, and on objects written without blanks whose values are string
    literals without escapes; anything else is refused here. *)
Definition flat_Unmarshal (s : string) : error + gmap string JSON :=
  match s with
  | EmptyString => inl "unexpected end of JSON input"
  | String c rest =>
      if bool_decide (c = "{"%char) then
        if bool_decide (rest = "}") then inr ∅
        else
          match read_members (String.length rest) rest ∅ with
          | Some m => inr m
          | None => inl "invalid character in object"
          end
      else inl ("invalid character '" +:+ String c EmptyString
                +:+ "' looking for beginning of value")
  end.

Definition env_ToDocker (c : @Config (list string)) (tty stdin : bool)
  : string * list string := (Image c, settings c).

Definition env_FromDocker (c : @Config (list string)) (cc : string * list string)
  : @Config (list string) := mkConfig (Image c) cc.2.

Definition env_ToImage (c : @Config (list string)) (tags : list string)
  : list string * list string := (tags, settings c).

Definition env_Marshal_image (i : list string * list string) : error + string :=
  inr (json_Marshal quote
         (JObject [("config", JObject [("Env", JArray (map JString i.2))]);
                   ("os", JString "linux")])).

Definition no_faults : Faults := mkFaults None None None None None (fun _ => None).

Definition empty_world : @World (string * list string) := mkWorld ∅ [] 0 ∅ false 0.

Definition session (image : string) : @Docker (list string) :=
  mkDocker (mkConfig image ["PATH=/bin"]) true false false.

Definition daemon_down : error := "Cannot connect to the Docker daemon".

(** The session of scenario b: the resulting image is [abc], and the
    engine has one image committed on top of it under the key
    [run echo hi]. *)
Definition cached_world : @World (string * list string) :=
  mkWorld ∅ [mkImageRecord "img-2" "abc" "run echo hi" ("abc", ["PATH=/bin"])] 0 ∅ false 0.

(** Two images on top of [abc]; the second was committed under the key. *)
Definition two_children : @World (string * list string) :=
  mkWorld ∅ [mkImageRecord "img-1" "abc" "run make" ("abc", ["PATH=/bin"]);
             mkImageRecord "img-2" "abc" "run echo hi" ("abc", ["PATH=/bin"])] 0 ∅ false 0.

(** The engine does not answer the listing. *)
Definition list_fails : Faults :=
  mkFaults None None None None (Some daemon_down) (fun _ => None).

(** The engine does not answer the inspection of [img-1]. *)
Definition inspect_fails : Faults :=
  mkFaults None None None None None
    (fun id => if decide (id = "img-1") then Some daemon_down else None).

(** The engine is lost after the container is created: neither the commit
    nor the forced removal is carried out. *)
Definition engine_lost : Faults :=
  mkFaults None (Some daemon_down) None (Some daemon_down) None (fun _ => None).

(** The engine refuses the commit and carries out the forced removal. *)
Definition commit_fails : Faults :=
  mkFaults None (Some daemon_down) None None None (fun _ => None).

(** The state after [Create] in the empty world. *)
Definition one_container : @World (string * list string) :=
  (Create env_ToDocker no_faults (session "abc") empty_world).2.

(** A response of one progress line, and the same line followed by the
    CR LF the engine ends each message with. *)
Definition progress_line : string :=
  "{" +:+ quote "status" +:+ ":" +:+ quote "Loaded image" +:+ "}".

Definition crlf : string := String CR (String LF EmptyString).

Definition import_ok (body : string) : BuildEnv := mkBuildEnv None None None (inr body).

Definition exits (stat : Z) : RunEnv := mkRunEnv None None None (inr stat).

Definition build (B : BuildEnv) (id tw : string) :=
  CopyToContainer env_ToImage quote env_Marshal_image flat_Unmarshal B
    (session "abc") empty_world id 0 tw.

(** The decoder on a line of a stream: the newline [ReadBytes] leaves at
    the end of the line is white space to [json.Unmarshal]. *)
Fixpoint chomp (s : string) : string :=
  match s with
  | EmptyString => EmptyString
  | String c rest =>
      if bool_decide (c = LF) && bool_decide (rest = EmptyString) then EmptyString
      else String c (chomp rest)
  end.

Definition line_Unmarshal (line : string) : error + gmap string JSON :=
  flat_Unmarshal (chomp line).

Definition report (status id : string) : string :=
  "{" +:+ quote "status" +:+ ":" +:+ quote status +:+ "," +:+ quote "id" +:+ ":" +:+ quote id
  +:+ "}" +:+ String LF EmptyString.

(** The progress of a pull of two layers, the first of which is reported
    twice. *)
Definition pull_text : string :=
  report "Pulling fs layer" "a1" +:+ report "Pulling fs layer" "b2"
  +:+ report "Download complete" "a1".

(** The archive the engine answers a copy of [/etc/hostname] with. *)
Definition hostname_archive : CopyEnv :=
  mkCopyEnv None (mkTarStream [("hostname", "box")] None).

(** A file system with the directories [/], [/tmp] and [/tmp/w], the
    process being in [/tmp]. *)
Definition disk : layer.FS :=
  layer.mkFS (list_to_map [("/", true); ("/tmp", true); ("/tmp/w", true)]) "/tmp" [].

Definition quux : layer.Layer := layer.mkLayer "quux" "/tmp/w".

(** * Properties *)

(** ** Strings *)

Lemma string_app_length (a b : string) :
  String.length (a +:+ b) = (String.length a + String.length b)%nat.
Proof.
  induction a as [|x a IH]; [done|].
  unfold String.app. simpl. fold (String.app a b). by rewrite IH.
Qed.

Lemma string_app_inj_r (a b c : string) : a +:+ c = b +:+ c -> a = b.
Proof.
  intros Hc.
  assert (Hl : String.length a = String.length b)
    by (apply (f_equal String.length) in Hc; rewrite !string_app_length in Hc; lia).
  revert b Hc Hl. induction a as [|x a IH]; intros [|y b] Hc Hl; try done.
  unfold String.app in Hc. simpl in Hc. inversion Hc.
  f_equal. apply IH; [done|simpl in Hl; lia].
Qed.

Lemma split_crlf_nonempty s : split_crlf s <> [].
Proof.
  destruct s as [|c rest]; [done|]. simpl.
  destruct rest as [|c' rest']; [by destruct (split_crlf EmptyString)|].
  destruct (bool_decide (c = CR) && bool_decide (c' = LF)); [done|].
  by destruct (split_crlf (String c' rest')).
Qed.

Lemma join_cons_char sep c piece pieces :
  join sep (String c piece :: pieces) = String c (join sep (piece :: pieces)).
Proof. by destruct pieces. Qed.

(** The pieces of [split_crlf], joined by CR LF again, are the input. *)
Lemma join_split_crlf s : join (String CR (String LF EmptyString)) (split_crlf s) = s.
Proof.
  assert (H : forall n s, (String.length s <= n)%nat ->
    join (String CR (String LF EmptyString)) (split_crlf s) = s).
  { clear s. induction n as [|n IH]; intros [|c rest] Hn; try done; simpl in Hn; [lia|].
    assert (Hkeep :
      join (String CR (String LF EmptyString))
        match split_crlf rest with
        | piece :: pieces => String c piece :: pieces
        | [] => [String c EmptyString]
        end = String c rest).
    { pose proof (split_crlf_nonempty rest) as Hne.
      pose proof (IH rest ltac:(lia)) as Hrest.
      destruct (split_crlf rest) as [|piece pieces]; [done|].
      by rewrite join_cons_char, Hrest. }
    simpl. destruct rest as [|c' rest']; [exact Hkeep|].
    destruct (bool_decide (c = CR)) eqn:Hc; [|exact Hkeep].
    destruct (bool_decide (c' = LF)) eqn:Hc'; [|exact Hkeep].
    apply bool_decide_eq_true in Hc as ->. apply bool_decide_eq_true in Hc' as ->.
    simpl. pose proof (split_crlf_nonempty rest') as Hne.
    pose proof (IH rest' ltac:(simpl in Hn; lia)) as Hrest.
    destruct (split_crlf rest') as [|piece pieces]; [done|].
    by rewrite Hrest. }
  by apply (H (String.length s)).
Qed.

Section Properties.

Context {Settings ContainerConfig ImageSpec : Type}.
Variable ToDocker : @Config Settings -> bool -> bool -> ContainerConfig.
Variable FromDocker : @Config Settings -> ContainerConfig -> @Config Settings.
Variable ToImage : @Config Settings -> list string -> ImageSpec.
Variable cc_image : ContainerConfig -> string.
Variable strconv_Quote : string -> string.
Variable json_string : string -> string.
Variable json_Marshal_image : ImageSpec -> error + string.
Variable json_Unmarshal : string -> error + gmap string JSON.

Implicit Types (F : Faults) (w : @World ContainerConfig) (d : @Docker Settings).
Implicit Types (B : BuildEnv) (E : RunEnv) (hook : option (@Hook ContainerConfig)).

(** ** The cache lookup *)

Lemma adopt_Image d img inspect : Image (config (adopt FromDocker d img inspect)) = ID img.
Proof. reflexivity. Qed.

Lemma CheckCache_range_miss F w d key imgs r d' :
  CheckCache_range FromDocker F w d key imgs = ((false, r), d') -> d' = d.
Proof.
  induction imgs as [|img rest IH]; simpl; intros H.
  - by inversion H.
  - case_decide; [|by auto].
    destruct (ImageInspectWithRaw F w (ID img)) as [e|inspect]; [by inversion H|].
    case_decide; [by inversion H|by auto].
Qed.

Lemma CheckCache_range_error F w d key imgs hit e d' :
  CheckCache_range FromDocker F w d key imgs = ((hit, Some e), d') ->
  hit = false /\
  exists l1 img l2, imgs = l1 ++ img :: l2 /\
    ParentID img = Image (config d) /\ ImageInspectWithRaw F w (ID img) = inl e.
Proof.
  induction imgs as [|img rest IH]; simpl; intros H.
  - by inversion H.
  - assert (Hrest : CheckCache_range FromDocker F w d key rest = ((hit, Some e), d') ->
        hit = false /\ exists l1 img0 l2, img :: rest = l1 ++ img0 :: l2 /\
          ParentID img0 = Image (config d) /\ ImageInspectWithRaw F w (ID img0) = inl e).
    { intros Hr. destruct (IH Hr) as (-> & l1 & img0 & l2 & -> & ? & ?).
      split; [done|]. by exists (img :: l1), img0, l2. }
    case_decide as Hp; [|by auto].
    destruct (ImageInspectWithRaw F w (ID img)) as [e'|inspect] eqn:Hi.
    + inversion H; subst. split; [done|]. by exists [], img, rest.
    + case_decide; [by inversion H|by auto].
Qed.

Lemma CheckCache_range_answered F w d key imgs :
  (forall img, img ∈ imgs -> ParentID img = Image (config d) ->
     exists inspect, ImageInspectWithRaw F w (ID img) = inr inspect) ->
  (exists l1 img l2 inspect,
      imgs = l1 ++ img :: l2 /\ cache_match F w d key img inspect /\
      (forall x i, x ∈ l1 -> ~ cache_match F w d key x i) /\
      CheckCache_range FromDocker F w d key imgs = ((true, None), adopt FromDocker d img inspect)) \/
  ((forall x i, x ∈ imgs -> ~ cache_match F w d key x i) /\
   CheckCache_range FromDocker F w d key imgs = ((false, None), d)).
Proof.
  induction imgs as [|img rest IH]; intros Hans.
  - right. split; [|done]. intros x i Hx. by apply elem_of_nil in Hx.
  - assert (Hskip : (forall i, ~ cache_match F w d key img i) ->
        CheckCache_range FromDocker F w d key (img :: rest) = CheckCache_range FromDocker F w d key rest ->
        (exists l1 img0 l2 inspect,
            img :: rest = l1 ++ img0 :: l2 /\ cache_match F w d key img0 inspect /\
            (forall x i, x ∈ l1 -> ~ cache_match F w d key x i) /\
            CheckCache_range FromDocker F w d key (img :: rest) = ((true, None), adopt FromDocker d img0 inspect)) \/
        ((forall x i, x ∈ img :: rest -> ~ cache_match F w d key x i) /\
         CheckCache_range FromDocker F w d key (img :: rest) = ((false, None), d))).
    { intros Hno Heq. rewrite Heq.
      destruct IH as [(l1 & img0 & l2 & inspect & -> & Hm & Hbefore & Hr)|[Hnone Hr]].
      - intros x Hx. apply Hans. by right.
      - left. exists (img :: l1), img0, l2, inspect. split_and!; try done.
        intros x i [->|Hx]%elem_of_cons; [apply Hno|by apply Hbefore].
      - right. split; [|done].
        intros x i [->|Hx]%elem_of_cons; [apply Hno|by apply Hnone]. }
    simpl. simpl in Hskip. case_decide as Hp.
    + destruct (Hans img) as [inspect Hi]; [by left|done|].
      rewrite Hi. rewrite Hi in Hskip. case_decide as Hc.
      * left. exists [], img, rest, inspect. split_and!; try done.
        intros x i Hx. by apply elem_of_nil in Hx.
      * apply Hskip; [|done]. intros i (_ & Hi' & Hc'). congruence.
    + apply Hskip; [|done]. by intros i (Hp' & _).
Qed.

Lemma CheckCache_miss_unchanged F w d key r d' :
  CheckCache FromDocker F w d key = ((false, r), d') -> d' = d.
Proof.
  unfold CheckCache. destruct (useCache d); simpl; [|by inversion 1].
  case_decide; [|by inversion 1].
  destruct (ImageList F w) as [e|imgs]; [by inversion 1|].
  apply CheckCache_range_miss.
Qed.

(** An error of the lookup is an error of the engine: of the listing, or of
    the inspection of a listed image whose parent is the resulting image.
    The lookup then reports no hit and leaves the executor as it was. *)
Lemma CheckCache_engine_error F w d key hit e d' :
  CheckCache FromDocker F w d key = ((hit, Some e), d') ->
  hit = false /\ d' = d /\
  (ImageList F w = inl e \/
   exists imgs l1 img l2, ImageList F w = inr imgs /\ imgs = l1 ++ img :: l2 /\
     ParentID img = Image (config d) /\ ImageInspectWithRaw F w (ID img) = inl e).
Proof.
  intros H.
  assert (hit = false /\
    (ImageList F w = inl e \/
     exists imgs l1 img l2, ImageList F w = inr imgs /\ imgs = l1 ++ img :: l2 /\
       ParentID img = Image (config d) /\ ImageInspectWithRaw F w (ID img) = inl e))
    as [-> Hwhy].
  { revert H. unfold CheckCache. destruct (useCache d); simpl; [|by inversion 1].
    case_decide; [|by inversion 1].
    destruct (ImageList F w) as [e'|imgs] eqn:Hl.
    - inversion 1; subst. split; [done|by left].
    - intros (-> & l1 & img & l2 & -> & ? & ?)%CheckCache_range_error.
      split; [done|]. right. by exists (l1 ++ img :: l2), l1, img, l2. }
  split; [done|]. split; [|done]. by eapply CheckCache_miss_unchanged.
Qed.

Lemma CheckCache_answered F w d cacheKey imgs :
  engine_answers F w d imgs ->
  let r := CheckCache FromDocker F w d cacheKey in
  (r.1.1 = true <->
     useCache d = true /\ Image (config d) <> EmptyString /\
     exists img inspect, img ∈ imgs /\ cache_match F w d cacheKey img inspect) /\
  (r.1.1 = true ->
     exists l1 img l2 inspect,
       imgs = l1 ++ img :: l2 /\ cache_match F w d cacheKey img inspect /\
       (forall x i, x ∈ l1 -> ~ cache_match F w d cacheKey x i) /\
       r = ((true, None), adopt FromDocker d img inspect) /\ Image (config r.2) = ID img) /\
  (r.1.1 = false -> r = ((false, None), d)).
Proof.
  intros [Hlist Hans]. unfold CheckCache. rewrite Hlist.
  destruct (useCache d); simpl.
  2:{ split_and!; [split; [done|by intros (? & _)]|done|done]. }
  case_decide as HI; simpl.
  2:{ split_and!; [split; [done|by intros (_ & ? & _)]|done|done]. }
  destruct (CheckCache_range_answered F w d cacheKey imgs Hans)
    as [(l1 & img & l2 & inspect & -> & Hm & Hbefore & ->)|[Hnone ->]]; simpl.
  - split_and!; [split; [intros _|done]|intros _|done].
    + split_and!; [done|done|]. exists img, inspect. split; [|done].
      apply elem_of_app. right. by left.
    + by exists l1, img, l2, inspect.
  - split_and!; [split; [done|]|done|done].
    intros (_ & _ & img & inspect & Hin & Hm). by destruct (Hnone img inspect Hin).
Qed.

(** Without caching, or without a resulting image, the lookup misses and
    the engine is not asked. *)
Lemma CheckCache_not_consulted F w d cacheKey :
  useCache d = false \/ Image (config d) = EmptyString ->
  CheckCache FromDocker F w d cacheKey = ((false, None), d).
Proof.
  unfold CheckCache. intros [->| ->]; [done|].
  by destruct (useCache d).
Qed.

(** The loop ends with the error [e] exactly when the inspection of a
    listed image whose parent is the resulting image fails with [e], the
    loop having gone past the images before it. *)
Lemma CheckCache_range_fails F w d key imgs e :
  (CheckCache_range FromDocker F w d key imgs).1.2 = Some e <->
  exists l1 img l2,
    imgs = l1 ++ img :: l2 /\ passed_over F w d key l1 /\
    ParentID img = Image (config d) /\ ImageInspectWithRaw F w (ID img) = inl e.
Proof.
  induction imgs as [|img rest IH].
  - split; [done|]. by intros ([|??] & ? & ? & ? & _).
  - assert (Hskip : passed_over F w d key [img] ->
      (CheckCache_range FromDocker F w d key rest).1.2 = Some e <->
      exists l1 img0 l2,
        img :: rest = l1 ++ img0 :: l2 /\ passed_over F w d key l1 /\
        ParentID img0 = Image (config d) /\ ImageInspectWithRaw F w (ID img0) = inl e).
    { intros Hpast. rewrite IH. split.
      - intros (l1 & img0 & l2 & -> & Hl1 & Hp & Hi).
        exists (img :: l1), img0, l2. split_and!; [done| |done|done].
        intros x [->|Hx]%elem_of_cons Hx'; [|by apply Hl1].
        apply Hpast; [by left|done].
      - intros ([|x l1] & img0 & l2 & Heq & Hl1 & Hp & Hi); simplify_eq/=.
        + destruct (Hpast img0) as (i & Hi' & _); [by left|done|congruence].
        + exists l1, img0, l2. split_and!; [done| |done|done].
          intros y Hy. apply Hl1. by right. }
    simpl. case_decide as Hp.
    2:{ apply Hskip. intros x ->%list_elem_of_singleton Hx. done. }
    destruct (ImageInspectWithRaw F w (ID img)) as [e'|inspect] eqn:Hi.
    + simpl. split.
      * intros [= ->]. exists [], img, rest. split_and!; [done| |done|done].
        by intros x ?%elem_of_nil.
      * intros ([|x l1] & img0 & l2 & Heq & Hl1 & Hp0 & Hi0); simplify_eq/=; [congruence|].
        destruct (Hl1 x) as (i & Hi' & _); [by left|done|congruence].
    + case_decide as Hc.
      * simpl. split; [done|].
        intros ([|x l1] & img0 & l2 & Heq & Hl1 & Hp0 & Hi0); simplify_eq/=; [congruence|].
        destruct (Hl1 x) as (i & Hi' & Hne); [by left|done|]. congruence.
      * apply Hskip. intros x ->%list_elem_of_singleton _. by exists inspect.
Qed.

(** The loop ends with a hit on the first listed image that matches, when
    it has gone past the images before it. *)
Lemma CheckCache_range_reaches F w d key l1 img l2 inspect :
  passed_over F w d key l1 -> cache_match F w d key img inspect ->
  CheckCache_range FromDocker F w d key (l1 ++ img :: l2)
  = ((true, None), adopt FromDocker d img inspect).
Proof.
  intros Hl1 (Hp & Hi & Hc). induction l1 as [|x l1 IH]; simpl.
  - rewrite decide_True by done. rewrite Hi. by rewrite decide_True.
  - assert (Hrest : passed_over F w d key l1) by (intros y Hy; apply Hl1; by right).
    case_decide as Hx; [|by apply IH].
    destruct (Hl1 x) as (i & -> & Hne); [by left|done|].
    rewrite decide_False by done. by apply IH.
Qed.

Lemma CheckCache_range_hit F w d key imgs :
  (CheckCache_range FromDocker F w d key imgs).1.1 = true ->
  exists l1 img l2 inspect,
    imgs = l1 ++ img :: l2 /\ passed_over F w d key l1 /\
    cache_match F w d key img inspect.
Proof.
  induction imgs as [|img rest IH]; [done|].
  assert (Hskip : passed_over F w d key [img] ->
    (CheckCache_range FromDocker F w d key rest).1.1 = true ->
    exists l1 img0 l2 inspect,
      img :: rest = l1 ++ img0 :: l2 /\ passed_over F w d key l1 /\
      cache_match F w d key img0 inspect).
  { intros Hpast (l1 & img0 & l2 & inspect & -> & Hl1 & Hm)%IH.
    exists (img :: l1), img0, l2, inspect. split_and!; [done| |done].
    intros x [->|Hx]%elem_of_cons Hx'; [|by apply Hl1].
    apply Hpast; [by left|done]. }
  simpl. case_decide as Hp.
  2:{ apply Hskip. intros x ->%list_elem_of_singleton Hx. done. }
  destruct (ImageInspectWithRaw F w (ID img)) as [e'|inspect] eqn:Hi; [done|].
  case_decide as Hc.
  - intros _. exists [], img, rest, inspect. split_and!; [done| |done].
    by intros x ?%elem_of_nil.
  - apply Hskip. intros x ->%list_elem_of_singleton _. by exists inspect.
Qed.

(** The lookup ends with the error [e] exactly when caching is enabled,
    there is a resulting image and the engine fails the lookup with [e]. *)
Lemma CheckCache_fails F w d cacheKey e :
  (CheckCache FromDocker F w d cacheKey).1.2 = Some e <->
  useCache d = true /\ Image (config d) <> EmptyString /\ engine_fails F w d cacheKey e.
Proof.
  unfold CheckCache, engine_fails. destruct (useCache d); simpl.
  2:{ split; [done|by intros (? & _)]. }
  case_decide as HI.
  2:{ split; [done|by intros (_ & ? & _)]. }
  destruct (ImageList F w) as [e'|imgs] eqn:Hl; simpl.
  - split.
    + intros [= ->]. split_and!; [done|done|by left].
    + intros (_ & _ & [[= ->]|(? & ? & ? & ? & ? & _)]); done.
  - rewrite CheckCache_range_fails. split.
    + intros (l1 & img & l2 & -> & Hl1 & Hp & Hi). split_and!; [done|done|].
      right. by exists (l1 ++ img :: l2), l1, img, l2.
    + intros (_ & _ & [?|(imgs' & l1 & img & l2 & [= <-] & -> & Hl1 & Hp & Hi)]); [done|].
      by exists l1, img, l2.
Qed.

(** C1, as amended: when the engine answers the listing and the inspections
    of the listed images whose parent is the resulting image [I],
    [CheckCache F] reports a hit iff caching is enabled, [I] is not empty
    and some listed image has parent [I] and comment [F]; on a hit the
    first such image becomes the resulting image and its recorded
    configuration is merged; on a miss the result is [(false, nil)] and the
    executor is unchanged.  The result is [(false, err)] with the executor
    unchanged exactly when caching is enabled, [I] is not empty and the
    engine fails the lookup with [err]: it does not answer the listing, or
    it does not answer the inspection of a listed image with parent [I]
    that the loop reaches, every listed image with parent [I] before it
    having been inspected and found to carry another comment; and every
    error the lookup returns is returned in this form.  With caching
    disabled or [I] empty the result is [(false, nil)] whatever the engine
    would answer.  Whatever the engine answers for the images the loop
    does not reach, the lookup is a hit on the first listed image with
    parent [I] and comment [F] that it reaches, and a hit is such a hit;
    without a hit the executor is unchanged. *)
Theorem CheckCache_hit_iff F w d cacheKey :
  let r := CheckCache FromDocker F w d cacheKey in
  (forall imgs, engine_answers F w d imgs ->
     (r.1.1 = true <->
        useCache d = true /\ Image (config d) <> EmptyString /\
        exists img inspect, img ∈ imgs /\ cache_match F w d cacheKey img inspect) /\
     (r.1.1 = true ->
        exists l1 img l2 inspect,
          imgs = l1 ++ img :: l2 /\ cache_match F w d cacheKey img inspect /\
          (forall x i, x ∈ l1 -> ~ cache_match F w d cacheKey x i) /\
          r = ((true, None), adopt FromDocker d img inspect) /\
          Image (config r.2) = ID img) /\
     (r.1.1 = false -> r = ((false, None), d))) /\
  (forall e,
     r = ((false, Some e), d) <->
     useCache d = true /\ Image (config d) <> EmptyString /\ engine_fails F w d cacheKey e) /\
  (forall e, r.1.2 = Some e ->
     r = ((false, Some e), d) /\
     (ImageList F w = inl e \/
      exists imgs l1 img l2, ImageList F w = inr imgs /\ imgs = l1 ++ img :: l2 /\
        ParentID img = Image (config d) /\ ImageInspectWithRaw F w (ID img) = inl e)) /\
  (useCache d = false \/ Image (config d) = EmptyString -> r = ((false, None), d)) /\
  (forall imgs l1 img l2 inspect,
     useCache d = true -> Image (config d) <> EmptyString ->
     ImageList F w = inr imgs -> imgs = l1 ++ img :: l2 ->
     passed_over F w d cacheKey l1 -> cache_match F w d cacheKey img inspect ->
     r = ((true, None), adopt FromDocker d img inspect)) /\
  (r.1.1 = true ->
     useCache d = true /\ Image (config d) <> EmptyString /\
     exists imgs l1 img l2 inspect,
       ImageList F w = inr imgs /\ imgs = l1 ++ img :: l2 /\
       passed_over F w d cacheKey l1 /\ cache_match F w d cacheKey img inspect) /\
  (r.1.1 = false -> r.2 = d).
Proof.
  intros r.
  assert (Herr : forall e, r.1.2 = Some e ->
    r = ((false, Some e), d) /\
    (ImageList F w = inl e \/
     exists imgs l1 img l2, ImageList F w = inr imgs /\ imgs = l1 ++ img :: l2 /\
       ParentID img = Image (config d) /\ ImageInspectWithRaw F w (ID img) = inl e)).
  { intros e He. subst r.
    destruct (CheckCache FromDocker F w d cacheKey) as [[hit err] d'] eqn:Hr.
    simpl in He. subst err.
    destruct (CheckCache_engine_error _ _ _ _ _ _ _ Hr) as (-> & -> & Hwhy). done. }
  split_and!.
  - intros imgs Hans. exact (CheckCache_answered F w d cacheKey imgs Hans).
  - intros e. split.
    + intros Hr. apply CheckCache_fails. fold r. by rewrite Hr.
    + intros Hfails%CheckCache_fails. by destruct (Herr e Hfails).
  - exact Herr.
  - exact (CheckCache_not_consulted F w d cacheKey).
  - intros imgs l1 img l2 inspect Hcache HI Hlist -> Hl1 Hm. subst r.
    unfold CheckCache. rewrite Hcache, Hlist. simpl. rewrite decide_True by done.
    by apply CheckCache_range_reaches.
  - subst r. unfold CheckCache. destruct (useCache d); simpl; [|done].
    case_decide as HI; [|done].
    destruct (ImageList F w) as [e|imgs]; [done|].
    intros (l1 & img & l2 & inspect & -> & Hl1 & Hm)%CheckCache_range_hit.
    split_and!; [done|done|]. by exists (l1 ++ img :: l2), l1, img, l2, inspect.
  - subst r. destruct (CheckCache FromDocker F w d cacheKey) as [[hit err] d'] eqn:Hr.
    simpl. intros ->. by eapply CheckCache_miss_unchanged.
Qed.

(** ** The container lifecycle *)

Lemma Commit_hook_outcome hook id cacheKey w :
  Commit_hook hook id cacheKey w =
    match hook_outcome hook id w with
    | ((_, Some e), w') => (inl e, w')
    | ((tmp, None), w') => (inr (effective_key tmp cacheKey), w')
    end.
Proof.
  destruct hook as [h|]; simpl; [|done].
  by destruct (h id w) as [[tmp [e|]] w'].
Qed.

Lemma ContainerRemove_images F w id force :
  images (ContainerRemove F w id force).2 = images w.
Proof.
  unfold ContainerRemove.
  destruct (if force then force_fault F else remove_fault F); [done|].
  by destruct (containers w !! id).
Qed.

Lemma ContainerRemove_gone F w id force :
  (ContainerRemove F w id force).1 = None ->
  containers (ContainerRemove F w id force).2 !! id = None.
Proof.
  unfold ContainerRemove.
  destruct (if force then force_fault F else remove_fault F); [done|].
  destruct (containers w !! id); [|done].
  intros _. apply lookup_delete_eq.
Qed.

Lemma ContainerRemove_absent F w id force :
  containers w !! id = None ->
  containers (ContainerRemove F w id force).2 !! id = None.
Proof.
  intros H. unfold ContainerRemove.
  destruct (if force then force_fault F else remove_fault F); [done|].
  by rewrite H.
Qed.

Lemma Destroy_gone F w id :
  force_fault F = None -> containers (Destroy F w id).2 !! id = None.
Proof.
  intros H. unfold Destroy, ContainerRemove. rewrite H.
  destruct (containers w !! id) eqn:Hc; [apply lookup_delete_eq|done].
Qed.

Lemma Commit_created F d w cacheKey hook id w1 :
  Create ToDocker F d w = ((id, None), w1) ->
  Commit ToDocker cc_image strconv_Quote F d w cacheKey hook =
    ((Commit_body ToDocker cc_image strconv_Quote F d w1 id cacheKey hook).1,
     (Destroy F (Commit_body ToDocker cc_image strconv_Quote F d w1 id cacheKey hook).2 id).2).
Proof.
  intros H. unfold Commit. rewrite H.
  by destruct (Commit_body ToDocker cc_image strconv_Quote F d w1 id cacheKey hook).
Qed.

(** C2: after the container is created, the first of the hook, the engine
    commit and the plain removal that fails gives [Commit] its error (the
    hook's as it is, the engine's under the context [Commit] adds to it)
    and the executor stays as it was; when none fails the resulting image
    is the id the engine committed, and the image at the head of the
    engine's images is that one, with the key the hook chose, or else the
    caller's, as comment. *)
Theorem Commit_all_or_nothing F d w cacheKey hook id w1 tmp herr w2 cid cerr w3 rerr w4 :
  Create ToDocker F d w = ((id, None), w1) ->
  hook_outcome hook id w1 = ((tmp, herr), w2) ->
  ContainerCommit cc_image F w2 id (ToDocker (config d) (tty d) (stdin d))
    (effective_key tmp cacheKey) = ((cid, cerr), w3) ->
  ContainerRemove F w3 id false = (rerr, w4) ->
  let r := Commit ToDocker cc_image strconv_Quote F d w cacheKey hook in
  match herr, cerr, rerr with
  | Some e, _, _ => r.1 = (Some e, d)
  | None, Some e, _ => r.1 = (Some ("Error during commit: " +:+ e), d)
  | None, None, Some e =>
      r.1 = (Some ("Could not remove intermediate container " +:+ strconv_Quote id
                   +:+ ": " +:+ e), d)
  | None, None, None =>
      r.1 = (None, set_config d (set_Image (config d) cid)) /\
      Image (config r.1.2) = cid /\
      exists parent,
        images r.2 =
          mkImageRecord cid parent (effective_key tmp cacheKey)
            (ToDocker (config d) (tty d) (stdin d)) :: images w2
  end.
Proof.
  intros Hcreate Hhook Hcommit Hremove r. subst r.
  rewrite (Commit_created _ _ _ _ _ _ _ Hcreate).
  unfold Commit_body. rewrite Commit_hook_outcome, Hhook.
  destruct herr as [e|]; [done|]. rewrite Hcommit.
  destruct cerr as [e|]; [done|]. rewrite Hremove.
  destruct rerr as [e|]; [done|]. simpl.
  split_and!; [done|done|].
  unfold Destroy. rewrite ContainerRemove_images.
  replace w4 with (ContainerRemove F w3 id false).2 by by rewrite Hremove.
  rewrite ContainerRemove_images.
  revert Hcommit. unfold ContainerCommit.
  destruct (commit_fault F); [by inversion 1|].
  destruct (containers w2 !! id) as [c|]; [|by inversion 1].
  inversion 1; subst. by eexists.
Qed.

(** The executor changes in a [Commit] only when it returns no error. *)
Lemma Commit_error_unchanged F d w cacheKey hook e d' w' :
  Commit ToDocker cc_image strconv_Quote F d w cacheKey hook = ((Some e, d'), w') -> d' = d.
Proof.
  unfold Commit. destruct (Create ToDocker F d w) as [[id [e0|]] w1]; [by inversion 1|].
  unfold Commit_body.
  destruct (Commit_hook hook id cacheKey w1) as [[e1|key] w2]; [by inversion 1|].
  destruct (ContainerCommit cc_image _ _ _ _ _) as [[cid [e2|]] w3]; [by inversion 1|].
  destruct (ContainerRemove F w3 id false) as [[e3|] w4]; by inversion 1.
Qed.

Lemma ContainerRemove_missing F w id force :
  containers w !! id = None ->
  ContainerRemove F w id force =
    (Some (default (no_such_container id) (if force then force_fault F else remove_fault F)), w).
Proof.
  intros H. unfold ContainerRemove.
  destruct (if force then force_fault F else remove_fault F); [done|]. by rewrite H.
Qed.

(** C3, as amended: [Destroy] of a container the engine does not have
    (any more) returns the error of the engine, the one for a missing
    container unless the engine fails otherwise, and changes nothing. *)
Theorem Destroy_absent F w id :
  containers w !! id = None ->
  Destroy F w id = (Some (default (no_such_container id) (force_fault F)), w).
Proof. intros H. by apply (ContainerRemove_missing F w id true). Qed.

(** The second of two [Destroy] calls, the first having removed the
    container: it fails and changes nothing. *)
Lemma Destroy_twice F w id w1 :
  Destroy F w id = (None, w1) ->
  Destroy F w1 id = (Some (no_such_container id), w1).
Proof.
  intros H.
  assert (Hf : force_fault F = None).
  { revert H. unfold Destroy, ContainerRemove. by destruct (force_fault F). }
  assert (Hgone : containers w1 !! id = None).
  { replace w1 with (Destroy F w id).2 by by rewrite H. by apply Destroy_gone. }
  unfold Destroy. by rewrite (ContainerRemove_missing _ _ _ _ Hgone), Hf.
Qed.

(** C4, as amended: whatever the hook does, the container [Commit] created
    no longer exists when [Commit] returns, provided [Commit] succeeds or
    the engine carries out the forced removal of the deferred cleanup. *)
Theorem Commit_container_gone F d w cacheKey hook id w1 :
  Create ToDocker F d w = ((id, None), w1) ->
  let r := Commit ToDocker cc_image strconv_Quote F d w cacheKey hook in
  r.1.1 = None \/ force_fault F = None ->
  containers r.2 !! id = None.
Proof.
  intros Hcreate r [Hok|Hforce]; subst r.
  - revert Hok. rewrite (Commit_created _ _ _ _ _ _ _ Hcreate). simpl.
    unfold Commit_body.
    destruct (Commit_hook hook id cacheKey w1) as [[e1|key] w2]; [done|].
    destruct (ContainerCommit cc_image _ _ _ _ _) as [[cid [e2|]] w3]; [done|].
    destruct (ContainerRemove F w3 id false) as [[e3|] w4] eqn:Hr; [done|].
    intros _. simpl. apply ContainerRemove_absent.
    replace w4 with (ContainerRemove F w3 id false).2 by by rewrite Hr.
    apply ContainerRemove_gone. by rewrite Hr.
  - rewrite (Commit_created _ _ _ _ _ _ _ Hcreate). simpl.
    by apply Destroy_gone.
Qed.

(** ** The run hook *)

(** C7: when the container is attached to and started and its process
    exits with status [s], [RunHook] returns, for [s] other than zero, the
    error whose text carries the decimal form of [s] and the quoted
    container id, and no error for [s = 0]. *)
Theorem RunHook_exit_status E d id w s :
  attach_result E = None ->
  (stdin d = true -> raw_result E = None) ->
  start_result E = None ->
  wait_result E = inr s ->
  (RunHook strconv_Quote E d id w).1 =
    (EmptyString, if decide (s = 0) then None else Some (exit_error strconv_Quote s id)).
Proof.
  intros Hattach Hraw Hstart Hwait.
  assert (Hs : RunHook_started strconv_Quote E id =
    (EmptyString, if decide (s = 0) then None else Some (exit_error strconv_Quote s id))).
  { unfold RunHook_started. rewrite Hstart, Hwait. by repeat case_decide. }
  unfold RunHook. rewrite Hattach.
  destruct (stdin d); [|done]. by rewrite Hraw.
Qed.

(** The texts for two statuses differ as the statuses do. *)
Lemma exit_error_status s1 s2 id : exit_error strconv_Quote s1 id = exit_error strconv_Quote s2 id -> s1 = s2.
Proof.
  unfold exit_error. intros H. apply (inj pretty).
  apply (inj (String.app "Command exited with status ")) in H.
  by apply string_app_inj_r in H.
Qed.

Lemma RunHook_override E d id w : (RunHook strconv_Quote E d id w).1.1 = EmptyString.
Proof.
  assert (Hs : (RunHook_started strconv_Quote E id).1 = EmptyString).
  { unfold RunHook_started. destruct (start_result E); [done|].
    destruct (wait_result E); [done|]. by case_decide. }
  unfold RunHook. destruct (attach_result E); [done|].
  destruct (stdin d); [|done]. by destruct (raw_result E).
Qed.

Lemma RunHook_images E d id w : images (RunHook strconv_Quote E d id w).2 = images w.
Proof.
  unfold RunHook. destruct (attach_result E); [done|].
  destruct (stdin d); [|done]. by destruct (raw_result E).
Qed.

(** C9: [RunHook] returns the empty string as its key on every path, so
    the [if hook != nil] block of a [Commit] whose hook is [RunHook] keeps
    the caller's key, and an image such a [Commit] adds to the engine has
    the caller's key as comment; when the [Commit] succeeds that image is
    the resulting image. *)
Theorem RunHook_keeps_cacheKey F E d w cacheKey :
  (forall id w', (RunHook strconv_Quote E d id w').1.1 = EmptyString) /\
  (forall id w' key w'',
     Commit_hook (Some (RunHook strconv_Quote E d)) id cacheKey w' = (inr key, w'') -> key = cacheKey) /\
  let r := Commit ToDocker cc_image strconv_Quote F d w cacheKey (Some (RunHook strconv_Quote E d)) in
  (images r.2 = images w \/
   exists rec, images r.2 = rec :: images w /\ img_comment rec = cacheKey) /\
  (r.1.1 = None ->
   exists rec, images r.2 = rec :: images w /\ img_comment rec = cacheKey /\
     img_id rec = Image (config r.1.2)).
Proof.
  assert (Hkey : forall id w' key w'',
     Commit_hook (Some (RunHook strconv_Quote E d)) id cacheKey w' = (inr key, w'') ->
     key = cacheKey /\ images w'' = images w').
  { intros id w' key w''. rewrite Commit_hook_outcome. simpl.
    pose proof (RunHook_override E d id w') as Ho.
    pose proof (RunHook_images E d id w') as Hi.
    destruct (RunHook strconv_Quote E d id w') as [[tmp [e|]] w3]; [by inversion 1|].
    simpl in Ho, Hi. subst tmp. inversion 1; subst. by rewrite Hi. }
  split; [intros; apply RunHook_override|].
  split; [intros id w' key w'' H; by destruct (Hkey _ _ _ _ H)|].
  unfold Commit, Create, ContainerCreate.
  destruct (create_fault F); simpl; [split; [by left|done]|].
  set (id := "container-" +:+ pretty (serial w)).
  set (w1 := bump _).
  assert (Hw1 : images w1 = images w) by done.
  unfold Commit_body.
  destruct (Commit_hook _ id cacheKey w1) as [[e1|key] w2] eqn:Hh; simpl.
  - split; [left|done]. unfold Destroy. rewrite ContainerRemove_images.
    revert Hh. rewrite Commit_hook_outcome. simpl.
    pose proof (RunHook_images E d id w1) as Hi.
    destruct (RunHook strconv_Quote E d id w1) as [[tmp [e|]] w3]; inversion 1; subst.
    simpl in Hi. by rewrite Hi.
  - destruct (Hkey _ _ _ _ Hh) as [-> Hw2].
    unfold ContainerCommit. destruct (commit_fault F); simpl.
    { split; [left|done]. unfold Destroy. rewrite ContainerRemove_images. congruence. }
    destruct (containers w2 !! id) as [c|]; simpl.
    2:{ split; [left|done]. unfold Destroy. rewrite ContainerRemove_images. congruence. }
    set (rec := mkImageRecord _ _ _ _).
    set (w3 := bump _).
    assert (Hw3 : images w3 = rec :: images w) by (simpl; congruence).
    pose proof (ContainerRemove_images F w3 id false) as Hr.
    destruct (ContainerRemove F w3 id false) as [[e3|] w4]; simpl in *.
    + split; [right|done]. exists rec. unfold Destroy.
      rewrite ContainerRemove_images. split; [congruence|done].
    + assert (images (Destroy F w4 id).2 = rec :: images w) as ->
        by (unfold Destroy; rewrite ContainerRemove_images; congruence).
      split; [right|intros _]; by exists rec.
Qed.

(** When stdin is forwarded and the terminal was switched to raw mode,
    [RunHook] restores it once, to the mode it had, whatever happens to
    the start and the wait. *)
Lemma RunHook_restores_terminal E d id w :
  attach_result E = None -> stdin d = true -> raw_result E = None ->
  term_raw (RunHook strconv_Quote E d id w).2 = term_raw w /\
  term_restores (RunHook strconv_Quote E d id w).2 = S (term_restores w).
Proof. intros Ha Hs Hr. unfold RunHook. by rewrite Ha, Hs, Hr. Qed.

(** ** The image archive *)

Lemma append_last_snoc ms m b :
  tar.append_last (ms ++ [m]) b = ms ++ [tar.mkMember (tar.header m) (tar.payload m +:+ b)].
Proof.
  induction ms as [|x ms IH]; [done|].
  simpl. rewrite IH. by destruct ms.
Qed.

(** A member whose header declares the length of its content is written
    whole, and leaves the writer owing nothing. *)
Lemma write_member_ok tw name content :
  tar.closed tw = false -> tar.err tw = None -> tar.nb tw = 0 ->
  write_member tw name content =
    (None, tar.mkWriter (tar.members tw ++ [member_of name content]) 0 None false).
Proof.
  intros Hc He Hn. unfold write_member, tar.WriteHeader, tar.Flush.
  rewrite Hc, He, Hn. simpl. rewrite He. unfold tar.Write. simpl.
  rewrite Z.ltb_irrefl, Z.sub_diag, append_last_snoc. done.
Qed.

Lemma write_archive_ok B d copyID content :
  json_Marshal_image (ToImage (config d) [copyID]) = inr content ->
  write_archive ToImage json_string json_Marshal_image json_Unmarshal B d copyID =
    (import_result json_Unmarshal B, tar.mkWriter (image_archive json_string copyID content) 0 None true).
Proof.
  intros Hm. unfold write_archive. rewrite Hm.
  rewrite write_member_ok by done. simpl.
  rewrite write_member_ok by done. simpl.
  rewrite write_member_ok by done. done.
Qed.

Lemma write_archive_failed B d copyID e :
  json_Marshal_image (ToImage (config d) [copyID]) = inl e ->
  write_archive ToImage json_string json_Marshal_image json_Unmarshal B d copyID = (Some e, tar.NewWriter).
Proof. intros Hm. unfold write_archive. by rewrite Hm. Qed.

Lemma json_repos copyID :
  json_Marshal json_string (repos copyID) =
    "{" +:+ (json_string copyID +:+ ":" +:+
      "{" +:+ (json_string "latest" +:+ ":" +:+ json_string copyID) +:+ "}") +:+ "}".
Proof. reflexivity. Qed.

Lemma json_manifest copyID :
  json_Marshal json_string (manifest copyID) =
    "[" +:+ ("{" +:+
      ((json_string "Config" +:+ ":" +:+ json_string (jsonFile copyID)) +:+ "," +:+
       (json_string "Layers" +:+ ":" +:+ "[" +:+ json_string (tarFile copyID) +:+ "]") +:+ "," +:+
       (json_string "RepoTags" +:+ ":" +:+ "[" +:+ json_string copyID +:+ "]")) +:+ "}") +:+ "]".
Proof. reflexivity. Qed.

(** C5: a [CopyToContainer] that gets as far as the archive (the spool
    file is written and the image description is encoded) writes the
    three members [<id>.json], [repositories] and [manifest.json], in that
    order and nothing else; every header declares the length of the
    content written after it; [repositories] is the encoding of
    [{id: {"latest": id}}] and [manifest.json] that of a list of one
    object with [Config] [<id>.json] and [RepoTags] [[id]]. *)
Theorem CopyToContainer_archive B d w id size tw content :
  tempfile_fault B = None ->
  spool_fault B = None ->
  json_Marshal_image (ToImage (config d) [id]) = inr content ->
  let archive := tar.members (CopyToContainer ToImage json_string json_Marshal_image json_Unmarshal B d w id size tw).2 in
  map (fun m => tar.Name (tar.header m)) archive =
    [id +:+ ".json"; "repositories"; "manifest.json"] /\
  Forall (fun m => tar.Size (tar.header m) = Z.of_nat (String.length (tar.payload m)))
    archive /\
  map tar.payload archive =
    [content;
     json_Marshal json_string (JObject [(id, JObject [("latest", JString id)])]);
     json_Marshal json_string (JArray [JObject [("Config", JString (id +:+ ".json"));
                                    ("Layers", JArray [JString (id +:+ "/layer.tar")]);
                                    ("RepoTags", JArray [JString id])]])] /\
  tar.nb (CopyToContainer ToImage json_string json_Marshal_image json_Unmarshal B d w id size tw).2 = 0.
Proof.
  intros Ht Hs Hm archive. subst archive.
  unfold CopyToContainer. rewrite Ht, Hs, (write_archive_ok _ _ _ _ Hm).
  destruct (import_result json_Unmarshal B); simpl; split_and!; try done; by repeat constructor.
Qed.

(** A [CopyToContainer] that does not get as far as the archive (the
    spool file cannot be created or written, or the image description
    cannot be encoded) writes no member, returns the error and leaves the
    executor as it was. *)
Lemma CopyToContainer_nothing_emitted B d w id size tw :
  tempfile_fault B <> None \/ spool_fault B <> None \/
  (exists e, json_Marshal_image (ToImage (config d) [id]) = inl e) ->
  let r := CopyToContainer ToImage json_string json_Marshal_image json_Unmarshal
             B d w id size tw in
  tar.members r.2 = [] /\ r.1.1.1 <> None /\ r.1.1.2 = d.
Proof.
  intros H. unfold CopyToContainer.
  destruct (tempfile_fault B) as [e|]; [done|].
  destruct (spool_fault B) as [e|]; [done|].
  destruct H as [H|[H|[e H]]]; [done|done|].
  by rewrite (write_archive_failed _ _ _ _ H).
Qed.

(** ** The import *)

Lemma import_lines_None lines :
  import_lines json_Unmarshal lines = None <-> Forall (passes json_Unmarshal) lines.
Proof.
  induction lines as [|line rest IH]; simpl.
  - split; [by constructor|done].
  - destruct (json_Unmarshal line) as [e|result] eqn:Hu.
    { split; [done|]. intros [(r & Hr & _) _]%Forall_cons. congruence. }
    destruct (result !! "error") as [j|] eqn:He.
    + assert (Hgo : (forall res, j <> JString res) ->
          import_lines json_Unmarshal rest = None <-> Forall (passes json_Unmarshal) (line :: rest)).
      { intros Hj. rewrite IH. split.
        - intros Hrest. constructor; [|done]. exists result. split; [done|].
          intros res. rewrite He. intros [= ->]. by apply (Hj res).
        - by intros [_ ?]%Forall_cons. }
      destruct j as [|b|n|res|items|members]; try (apply Hgo; done).
      split; [done|]. intros [(r & Hr & Hno) _]%Forall_cons.
      assert (r = result) as -> by congruence. by destruct (Hno res).
    + rewrite IH. split.
      * intros Hrest. constructor; [|done]. exists result. split; [done|].
        intros res. by rewrite He.
      * by intros [_ ?]%Forall_cons.
Qed.

(** The first piece that does not pass decides the error. *)
Lemma import_lines_first l1 line l2 :
  Forall (passes json_Unmarshal) l1 ->
  import_lines json_Unmarshal (l1 ++ line :: l2) =
    match json_Unmarshal line with
    | inl e => Some e
    | inr result =>
        match result !! "error" with
        | Some (JString res) => Some res
        | _ => import_lines json_Unmarshal l2
        end
    end.
Proof.
  induction l1 as [|x l1 IH]; [done|].
  intros [(r & Hr & Hno) Hrest]%Forall_cons. simpl. rewrite Hr.
  destruct (r !! "error") as [j|] eqn:He; [|by apply IH].
  destruct j; try (by apply IH). by destruct (Hno s).
Qed.

(** C6, as amended: for a response none of whose pieces between CR LF
    separators is empty, a [CopyToContainer] that gets as far as the
    archive returns what the import goroutine reports.  That is an error
    exactly when the import call fails, or its response cannot be read, or
    one of the pieces does not decode as a JSON object or decodes to one
    with a string under ["error"]; the first such piece gives the error,
    the string under ["error"] being its text.  Without an error the
    resulting image becomes [id]; with one the executor is unchanged. *)
Theorem CopyToContainer_import B d w id size tw content :
  tempfile_fault B = None ->
  spool_fault B = None ->
  json_Marshal_image (ToImage (config d) [id]) = inr content ->
  (forall body, import_body B = inr body ->
     Forall (fun piece => piece <> EmptyString) (split_crlf body)) ->
  let r := (CopyToContainer ToImage json_string json_Marshal_image json_Unmarshal
              B d w id size tw).1.1 in
  r.1 = import_result json_Unmarshal B /\
  (r.1 = None <->
     import_transport B = None /\
     exists body, import_body B = inr body /\
       Forall (passes json_Unmarshal) (split_crlf body)) /\
  (forall body l1 line l2 result res,
     import_transport B = None -> import_body B = inr body ->
     split_crlf body = l1 ++ line :: l2 -> Forall (passes json_Unmarshal) l1 ->
     json_Unmarshal line = inr result -> result !! "error" = Some (JString res) ->
     r.1 = Some res) /\
  (r.1 = None -> r.2 = set_config d (set_Image (config d) id)) /\
  (r.1 <> None -> r.2 = d).
Proof.
  intros Ht Hs Hm _ r. subst r.
  unfold CopyToContainer. rewrite Ht, Hs, (write_archive_ok _ _ _ _ Hm).
  assert (Hnone : import_result json_Unmarshal B = None <->
     import_transport B = None /\
     exists body, import_body B = inr body /\ Forall (passes json_Unmarshal) (split_crlf body)).
  { unfold import_result. destruct (import_transport B) as [e|].
    { split; [done|by intros [? _]]. }
    destruct (import_body B) as [e|body].
    { split; [done|]. by intros (_ & body & ? & _). }
    rewrite import_lines_None. split.
    - intros H. split; [done|]. by exists body.
    - intros (_ & body' & [= <-] & H). done. }
  assert (Hfirst : forall body l1 line l2 result res,
     import_transport B = None -> import_body B = inr body ->
     split_crlf body = l1 ++ line :: l2 -> Forall (passes json_Unmarshal) l1 ->
     json_Unmarshal line = inr result -> result !! "error" = Some (JString res) ->
     import_result json_Unmarshal B = Some res).
  { intros body l1 line l2 result res Htr Hb Hsplit Hl1 Hu He.
    unfold import_result. rewrite Htr, Hb, Hsplit, (import_lines_first _ _ _ Hl1).
    by rewrite Hu, He. }
  destruct (import_result json_Unmarshal B) as [e|] eqn:Hi; simpl.
  - split_and!; [done|done|by eauto|done|done].
  - split_and!; [done|done|by eauto|done|done].
Qed.

(** ** The content stream *)

Lemma tarFile_not_written id content m :
  m ∈ image_archive json_string id content -> tar.Name (tar.header m) <> tarFile id.
Proof.
  unfold image_archive, tarFile, jsonFile.
  intros Hm. repeat (apply elem_of_cons in Hm as [->|Hm]); simpl.
  - intros H. by apply (inj (String.app id)) in H.
  - intros H.
    assert (Hl : String.length id = 2%nat)
      by (apply (f_equal String.length) in H; rewrite string_app_length in H;
          simpl in H; lia).
    by destruct id as [|a [|b [|c id]]].
  - intros H.
    assert (Hl : String.length id = 3%nat)
      by (apply (f_equal String.length) in H; rewrite string_app_length in H;
          simpl in H; lia).
    by destruct id as [|a [|b [|c [|c' id]]]].
  - by apply elem_of_nil in Hm.
Qed.

(** C10: nothing [CopyToContainer] returns or leaves behind depends on
    the bytes of the content stream: two runs that differ in the stream
    only end with the same result, the same state and the same archive.
    The spool file the stream was copied to is gone at the return, no
    member of the archive is named [<id>/layer.tar], and the manifest, the
    last member of a completed archive, names that file as its only
    layer. *)
Theorem CopyToContainer_ignores_stream B d w id size tw tw' :
  CopyToContainer ToImage json_string json_Marshal_image json_Unmarshal B d w id size tw = CopyToContainer ToImage json_string json_Marshal_image json_Unmarshal B d w id size tw' /\
  (tempfile_fault B = None ->
   files (CopyToContainer ToImage json_string json_Marshal_image json_Unmarshal B d w id size tw).1.2 !! spool_name w = None) /\
  (forall m, m ∈ tar.members (CopyToContainer ToImage json_string json_Marshal_image json_Unmarshal B d w id size tw).2 ->
     tar.Name (tar.header m) <> id +:+ "/layer.tar") /\
  (forall m, last (tar.members (CopyToContainer ToImage json_string json_Marshal_image json_Unmarshal B d w id size tw).2) = Some m ->
     tar.Name (tar.header m) = "manifest.json" /\
     tar.payload m =
       json_Marshal json_string (JArray [JObject [("Config", JString (id +:+ ".json"));
                                      ("Layers", JArray [JString (id +:+ "/layer.tar")]);
                                      ("RepoTags", JArray [JString id])]])).
Proof.
  assert (Hmem : forall m, m ∈ tar.members (CopyToContainer ToImage json_string json_Marshal_image json_Unmarshal B d w id size tw).2 ->
    exists content, m ∈ image_archive json_string id content).
  { intros m. unfold CopyToContainer.
    destruct (tempfile_fault B); [by intros ?%elem_of_nil|].
    destruct (spool_fault B); [by intros ?%elem_of_nil|].
    destruct (json_Marshal_image (ToImage (config d) [id])) as [e|content] eqn:Hm.
    - rewrite (write_archive_failed _ _ _ _ Hm). by intros ?%elem_of_nil.
    - rewrite (write_archive_ok _ _ _ _ Hm).
      destruct (import_result json_Unmarshal B); simpl; by exists content. }
  split_and!.
  - unfold CopyToContainer. destruct (tempfile_fault B); [done|].
    destruct (spool_fault B); [done|].
    assert (Hdel : forall x,
      delete (spool_name w)
        (files (set_files (bump (set_files w (<[spool_name w:=EmptyString]> (files w))))
           (<[spool_name w:=x]>
              (files (bump (set_files w (<[spool_name w:=EmptyString]> (files w)))))))) =
      delete (spool_name w) (files w)).
    { intros x. simpl. by rewrite !delete_insert_eq. }
    rewrite (Hdel tw), (Hdel tw'). done.
  - intros Ht. unfold CopyToContainer. rewrite Ht.
    destruct (spool_fault B); simpl; [apply lookup_delete_eq|].
    destruct (write_archive ToImage json_string json_Marshal_image json_Unmarshal B d id) as [[e|] archive]; simpl; apply lookup_delete_eq.
  - intros m [content Hm]%Hmem. by apply (tarFile_not_written id content).
  - intros m. unfold CopyToContainer.
    destruct (tempfile_fault B); [done|].
    destruct (spool_fault B); [done|].
    destruct (json_Marshal_image (ToImage (config d) [id])) as [e|content] eqn:Hm.
    + by rewrite (write_archive_failed _ _ _ _ Hm).
    + rewrite (write_archive_ok _ _ _ _ Hm).
      destruct (import_result json_Unmarshal B); simpl; by intros [= <-].
Qed.

End Properties.

(** * The rest of the executor *)

Section Coverage.

Context {Settings ContainerConfig ImageSpec : Type}.
Variable ToDocker : @Config Settings -> bool -> bool -> ContainerConfig.
Variable FromDocker : @Config Settings -> ContainerConfig -> @Config Settings.
Variable cc_image : ContainerConfig -> string.
Variable strconv_Quote : string -> string.
Variable json_Unmarshal : string -> error + gmap string JSON.

Implicit Types (F : Faults) (w : @World ContainerConfig) (d : @Docker Settings).
Implicit Types (E : RunEnv) (hook : option (@Hook ContainerConfig)).
Implicit Types (P : @PullEnv ContainerConfig) (C : CopyEnv) (st : PullState).

(** ** A commit and the lookup after it *)





(** X2: whatever the hook does to them, and when the id the engine gave
    the container was free, a [Commit] that succeeds, or whose deferred
    forced removal is carried out, leaves the containers of the engine as
    it found them: its own is gone and no other is touched. *)
Theorem Commit_containers_unchanged F d w cacheKey hook id w1 :
  Create ToDocker F d w = ((id, None), w1) ->
  containers w !! id = None ->
  (forall id w0, containers (hook_outcome hook id w0).2 = containers w0) ->
  let r := Commit ToDocker cc_image strconv_Quote F d w cacheKey hook in
  r.1.1 = None \/ force_fault F = None ->
  containers r.2 = containers w.
Proof.
  intros Hcreate Hfree Hkeep r Hgone. subst r.
  assert (Hw1 : containers w1 = <[id := mkContainer (ToDocker (config d) (tty d) (stdin d))]>
                                  (containers w)).
  { revert Hcreate. unfold Create, ContainerCreate.
    destruct (create_fault F); [by inversion 1|]. by intros [= <- <-]. }
  assert (Hdel : delete id (containers w1) = containers w)
    by (rewrite Hw1, delete_insert_eq; by apply delete_id).
  revert Hgone. rewrite (Commit_created _ _ _ _ _ _ _ _ _ _ Hcreate). simpl.
  unfold Commit_body. rewrite Commit_hook_outcome.
  pose proof (Hkeep id w1) as Hc.
  destruct (hook_outcome hook id w1) as [[tmp herr] w2]. simpl in Hc.
  assert (Hforce : forall w0, containers w0 = containers w1 -> force_fault F = None ->
            containers (Destroy F w0 id).2 = containers w).
  { intros w0 Hw0 Hf. unfold Destroy, ContainerRemove. rewrite Hf, Hw0, Hw1, lookup_insert_eq.
    simpl. by rewrite <- Hw1. }
  assert (Hcommit : forall key,
            containers (ContainerCommit cc_image F w2 id
                          (ToDocker (config d) (tty d) (stdin d)) key).2 = containers w1).
  { intros key. unfold ContainerCommit. destruct (commit_fault F); [done|].
    by destruct (containers w2 !! id). }
  destruct herr as [e|]; simpl.
  { intros [?|Hf]; [done|]. by apply Hforce. }
  pose proof (Hcommit (effective_key tmp cacheKey)) as Hc3.
  destruct (ContainerCommit cc_image F w2 id _ _) as [[cid [e|]] w3]; simpl in *.
  { intros [?|Hf]; [done|]. by apply Hforce. }
  destruct (ContainerRemove F w3 id false) as [[e|] w4] eqn:Hr; simpl.
  - assert (containers w4 = containers w1) as Hw4.
    { revert Hr. unfold ContainerRemove.
      destruct (remove_fault F); [intros H; by inversion H; subst|].
      destruct (containers w3 !! id); intros H; by inversion H; subst. }
    intros [?|Hf]; [done|]. by apply Hforce.
  - intros _.
    assert (containers w4 = containers w) as Hw4.
    { revert Hr. unfold ContainerRemove. destruct (remove_fault F); [done|].
      destruct (containers w3 !! id); [|done]. intros [= <-]. simpl. by rewrite Hc3. }
    unfold Destroy. rewrite ContainerRemove_missing by (by rewrite Hw4). done.
Qed.

(** ** The terminal around the run hook *)

(** X3: every return of [RunHook] leaves the terminal in the mode it was
    in at the call; the terminal is restored once when raw mode was entered
    (the attach succeeded, stdin is forwarded and [SetRawTerminal]
    succeeded) and not at all otherwise, whether the start and the wait
    succeed or not. *)
Theorem RunHook_terminal E d id w :
  let w' := (RunHook strconv_Quote E d id w).2 in
  term_raw w' = term_raw w /\
  term_restores w' =
    (if bool_decide (attach_result E = None /\ stdin d = true /\ raw_result E = None)
     then S (term_restores w) else term_restores w).
Proof.
  intros w'. subst w'. unfold RunHook. case_bool_decide as H.
  - destruct H as (-> & -> & ->). done.
  - destruct (attach_result E) eqn:Ha; [done|].
    destruct (stdin d) eqn:Hs; [|done].
    destruct (raw_result E) eqn:Hr; [done|]. by destruct H.
Qed.

(** ** Fetch *)

Lemma ImagePull_fault P w name e w' :
  ImagePull P w name = (inl e, w') -> w' = w.
Proof. unfold ImagePull. destruct (pull_fault P); by inversion 1. Qed.

(** X4: [Fetch] changes the executor only when it succeeds.  When it
    returns an error the id is empty and the executor is as it was; when
    it returns none, the id is the one the engine reports for the name in
    the state [Fetch] left, and the configuration is the old one with the
    configuration of that image merged by [FromDocker] ([Fetch] itself
    does not assign the resulting image).  An image the engine has
    already is not pulled, and [Fetch] panics only when it renders the
    pull on a terminal. *)
Theorem Fetch_all_or_nothing F P d w name :
  let r := Fetch FromDocker json_Unmarshal F P d w name in
  match r.1 with
  | Returns ((id, Some e), d') => id = EmptyString /\ d' = d
  | Returns ((id, None), d') =>
      exists inspect,
        ImageInspectWithRaw F r.2 name = inr inspect /\ id = inspect_ID inspect /\
        d' = set_config d (FromDocker (config d) (inspect_Config inspect))
  | Panics _ => tty d = true
  end /\
  (forall inspect, ImageInspectWithRaw F w name = inr inspect ->
     r = (Returns ((inspect_ID inspect, None),
                   set_config d (FromDocker (config d) (inspect_Config inspect))), w)) /\
  (pull_fault P <> None -> r.2 = w).
Proof.
  unfold Fetch.
  destruct (ImageInspectWithRaw F w name) as [e0|inspect0] eqn:Hi0; simpl.
  2:{ split_and!; [by exists inspect0|by intros ? [= <-]|done]. }
  unfold ImagePull. destruct (pull_fault P) as [e|]; simpl.
  { split_and!; done. }
  set (w1 := foldr _ _ _).
  assert (Hread : forall read : Outcome (option error),
    (forall msg, read = Panics msg -> tty d = true) ->
    let r := match read with
      | Returns (Some e) => (Returns (EmptyString, Some e, d), w1)
      | Returns None =>
          match ImageInspectWithRaw F w1 name with
          | inl e => (Returns (EmptyString, Some e, d), w1)
          | inr inspect =>
              (Returns (inspect_ID inspect, None,
                        set_config d (FromDocker (config d) (inspect_Config inspect))), w1)
          end
      | Panics msg => (Panics msg, w1)
      end in
    match r.1 with
    | Returns ((id, Some e), d') => id = EmptyString /\ d' = d
    | Returns ((id, None), d') =>
        exists inspect,
          ImageInspectWithRaw F r.2 name = inr inspect /\ id = inspect_ID inspect /\
          d' = set_config d (FromDocker (config d) (inspect_Config inspect))
    | Panics _ => tty d = true
    end).
  { intros [[e|]|msg] Hp; simpl; [done| |by eapply Hp].
    destruct (ImageInspectWithRaw F w1 name) as [e|inspect] eqn:Hi; simpl; [done|].
    by exists inspect. }
  split_and!; [|done|done].
  apply Hread. destruct (tty d); simpl; [done|done].
Qed.

(** ** The progress of a pull *)

Lemma read_lines_no_newline tail :
  LF ∉ list_ascii_of_string tail -> read_lines tail = ([], tail).
Proof.
  induction tail as [|c tail IH]; [done|]. simpl. intros H.
  rewrite IH by (intros ?; apply H; by right).
  rewrite bool_decide_eq_false_2; [done|]. intros ->. apply H. by left.
Qed.

Lemma read_lines_app_tail s tail :
  LF ∉ list_ascii_of_string tail -> (read_lines (s +:+ tail)).1 = (read_lines s).1.
Proof.
  intros H. induction s as [|c s IH].
  - unfold String.app. simpl. by rewrite read_lines_no_newline.
  - unfold String.app. simpl. fold (String.app s tail).
    destruct (read_lines (s +:+ tail)) as [ls t], (read_lines s) as [ls' t'].
    simpl in IH. subst ls'. case_bool_decide; [done|]. by destruct ls.
Qed.

(** X5: [printPull] handles the lines that end with a newline and nothing
    else: bytes after the last newline (a last line the stream does not
    terminate) change neither its result nor what it prints. *)
Theorem printPull_ignores_tail s tail e :
  LF ∉ list_ascii_of_string tail ->
  printPull json_Unmarshal (mkReader (s +:+ tail) e)
  = printPull json_Unmarshal (mkReader s e).
Proof. intros H. unfold printPull. simpl. by rewrite read_lines_app_tail. Qed.

Lemma rows_down_app out1 out2 : rows_down (out1 ++ out2) = rows_down out1 + rows_down out2.
Proof.
  induction out1 as [|p out1 IH]; simpl; [lia|]. destruct p; lia.
Qed.

Lemma never_above_app base out1 out2 :
  never_above base out1 -> never_above (base + rows_down out1) out2 ->
  never_above base (out1 ++ out2).
Proof.
  intros H1 H2 k1 k2 Hk. apply app_eq_inv in Hk as [(k & -> & ->)|(k & -> & ->)].
  - by apply (H1 k1 k).
  - rewrite rows_down_app. specialize (H2 k k2 eq_refl). lia.
Qed.

Lemma never_above_nil base : 0 <= base -> never_above base [].
Proof. intros H [|??] out2 Hk; [simpl; lia|done]. Qed.

Lemma never_above_cons base p out :
  0 <= base -> never_above (base + rows_down [p]) out -> never_above base (p :: out).
Proof.
  intros Hb H. apply (never_above_app base [p] out); [|done].
  intros [|q [|??]] out2 Hk; simplify_eq/=; [lia|].
  specialize (H [] out eq_refl). simpl in H. destruct q; simpl in *; lia.
Qed.

Lemma redraw_ok (m : gmap string (string * string)) ids base :
  (forall id, id ∈ ids -> is_Some (m !! id)) -> 0 <= base ->
  exists rows, redraw m ids = (Returns tt, rows) /\
    rows_down rows = Z.of_nat (length ids) /\ never_above base rows.
Proof.
  revert base. induction ids as [|id ids IH]; intros base Hin Hb.
  - exists []. split_and!; [done|done|by apply never_above_nil].
  - destruct (Hin id) as [[status progress] Hid]; [by left|].
    destruct (IH (base + 1)) as (rows & Hr & Hd & Hn); [intros; apply Hin; by right|lia|].
    simpl. rewrite Hid, Hr. eexists. split_and!; [done|simpl; lia|].
    apply never_above_cons; [done|]. simpl. by replace (base + (0 + 1)) with (base + 1) by lia.
Qed.

Lemma PullInv_report st reports id v :
  PullInv st reports ->
  PullInv (mkPullState (<[id := v]> (idmap st))
             (match idmap st !! id with Some _ => idlist st | None => idlist st ++ [id] end))
          (reports ++ [(id, v)]).
Proof.
  intros (Hmap & Hlist & Hin & Hsize). unfold PullInv. cbn [idmap idlist].
  rewrite reverse_snoc, fmap_app. cbn [fmap list_fmap fst]. rewrite reverse_snoc.
  rewrite list_to_map_cons. cbn [remove_dups].
  assert (Hmem : id ∈ reverse reports.*1 <-> is_Some (idmap st !! id)).
  { rewrite <- Hin, Hlist, !elem_of_reverse, elem_of_remove_dups. by rewrite elem_of_reverse. }
  split_and!.
  - by rewrite Hmap.
  - destruct (decide_rel elem_of id (reverse reports.*1)) as [Hy|Hn].
    + by apply Hmem in Hy as [v0 ->].
    + destruct (idmap st !! id) as [v0|] eqn:Hid; [exfalso; apply Hn, Hmem; eauto|].
      by rewrite reverse_cons, Hlist.
  - intros id'. rewrite lookup_insert_is_Some. destruct (decide (id = id')) as [<-|Hne].
    + split; [by left|intros _].
      destruct (idmap st !! id) as [v0|] eqn:Hid.
      * apply Hin. rewrite Hid. eauto.
      * apply elem_of_app. right. by left.
    + assert (id' ∈ match idmap st !! id with
                     | Some _ => idlist st
                     | None => idlist st ++ [id]
                     end <-> id' ∈ idlist st) as ->.
      { destruct (idmap st !! id); [done|]. rewrite elem_of_app, list_elem_of_singleton.
        split; [by intros [?|?]|by left]. }
      rewrite Hin. split; [by right|by intros [?|[??]]].
  - destruct (idmap st !! id) as [v0|] eqn:Hid.
    + by rewrite map_size_insert_Some.
    + rewrite map_size_insert_None by done. rewrite length_app. simpl. lia.
Qed.

Lemma redraw_after_status st reports status :
  PullInv st reports ->
  exists rows, redraw (idmap st) (idlist st) = (Returns tt, rows) /\
    rows_down ([CursorUp (size (idmap st) + 1); Row status] ++ rows) = 0 /\
    never_above (1 + Z.of_nat (length (idlist st)))
      ([CursorUp (size (idmap st) + 1); Row status] ++ rows).
Proof.
  intros (Hmap & Hlist & Hin & Hsize).
  destruct (redraw_ok (idmap st) (idlist st) 1) as (rows & Hr & Hd & Hn);
    [by intros id ?%Hin|lia|].
  exists rows. split_and!; [done| |].
  - simpl. rewrite Hd, Hsize. lia.
  - apply never_above_cons; [lia|]. apply never_above_cons; [simpl; rewrite Hsize; lia|].
    simpl. rewrite Hsize.
    by replace (1 + Z.of_nat (length (idlist st)) +
                (0 - Z.of_nat (length (idlist st) + 1)) + (0 + 1)) with 1 by lia.
Qed.

Lemma redraw_after_report st reports id v :
  PullInv st reports ->
  let st' := mkPullState (<[id := v]> (idmap st))
               (match idmap st !! id with Some _ => idlist st | None => idlist st ++ [id] end) in
  exists rows, redraw (idmap st') (idlist st') = (Returns tt, rows) /\
    rows_down (CursorUp (size (idmap st)) :: rows)
      = Z.of_nat (length (idlist st')) - Z.of_nat (length (idlist st)) /\
    never_above (1 + Z.of_nat (length (idlist st))) (CursorUp (size (idmap st)) :: rows).
Proof.
  intros Hinv st'.
  pose proof (PullInv_report st reports id v Hinv) as (_ & _ & Hin' & _).
  destruct Hinv as (Hmap & Hlist & Hin & Hsize).
  destruct (redraw_ok (idmap st') (idlist st') 1) as (rows & Hr & Hd & Hn);
    [by intros id' ?%Hin'|lia|].
  exists rows. split_and!; [done| |].
  - cbn [rows_down]. rewrite Hd, Hsize. lia.
  - apply never_above_cons; [lia|]. cbn [rows_down]. rewrite Hsize.
    by replace (1 + Z.of_nat (length (idlist st)) + (0 - Z.of_nat (length (idlist st))))
      with 1 by lia.
Qed.

(** One line of the stream, handled in a table that satisfies the
    invariant. *)
Lemma pull_line_cases line st reports :
  PullInv st reports ->
  match pull_line json_Unmarshal line st with
  | (Returns (Some e, st'), out) => json_Unmarshal line = inl e /\ st' = st /\ out = []
  | (Returns (None, st'), out) =>
      handled json_Unmarshal line /\
      PullInv st' (reports ++ report_of json_Unmarshal line) /\
      rows_down out = Z.of_nat (length (idlist st')) - Z.of_nat (length (idlist st)) /\
      never_above (1 + Z.of_nat (length (idlist st))) out
  | (Panics msg, out) =>
      out = [] /\
      exists unpacked, json_Unmarshal line = inr unpacked /\
        forall status, unpacked !! "status" <> Some (JString status)
  end.
Proof.
  intros Hinv. unfold pull_line, report_of, line_report, handled.
  destruct (json_Unmarshal line) as [e|unpacked] eqn:Hu; [done|].
  destruct (unpacked !! "status") as [[| | |status| |]|] eqn:Hs;
    try (split; [done|]; exists unpacked; split; [done|]; intros status0; by rewrite Hs).
  set (progress := match unpacked !! "progress" with Some (JString p) => p | _ => EmptyString end).
  destruct (unpacked !! "id") as [[| | |id| |]|] eqn:Hid;
    try (destruct (redraw_after_status st reports status Hinv) as (rows & Hr & Hd & Hn);
         rewrite Hr, app_nil_r; split_and!; [by eauto|done|rewrite Hd; lia|done]).
  destruct (redraw_after_report st reports id (status, progress) Hinv) as (rows & Hr & Hd & Hn).
  rewrite Hr. split_and!; [by eauto| |done|done].
  by apply PullInv_report.
Qed.

Lemma omap_report_cons line rest :
  omap (line_report json_Unmarshal) (line :: rest)
  = report_of json_Unmarshal line ++ omap (line_report json_Unmarshal) rest.
Proof. unfold report_of. simpl. by destruct (line_report json_Unmarshal line). Qed.

(** The lines of the stream in turn: where the loop stops and what the
    table holds then. *)
Lemma pull_lines_cases lines st reports :
  PullInv st reports ->
  match pull_lines json_Unmarshal lines st with
  | (Returns (None, st'), out) =>
      Forall (handled json_Unmarshal) lines /\
      PullInv st' (reports ++ omap (line_report json_Unmarshal) lines) /\
      rows_down out = Z.of_nat (length (idlist st')) - Z.of_nat (length (idlist st)) /\
      never_above (1 + Z.of_nat (length (idlist st))) out
  | (Returns (Some e, st'), out) =>
      (exists l1 line l2, lines = l1 ++ line :: l2 /\ Forall (handled json_Unmarshal) l1 /\
         json_Unmarshal line = inl e /\
         PullInv st' (reports ++ omap (line_report json_Unmarshal) l1)) /\
      rows_down out = Z.of_nat (length (idlist st')) - Z.of_nat (length (idlist st)) /\
      never_above (1 + Z.of_nat (length (idlist st))) out
  | (Panics msg, out) =>
      (exists l1 line l2 unpacked, lines = l1 ++ line :: l2 /\ Forall (handled json_Unmarshal) l1 /\
         json_Unmarshal line = inr unpacked /\
         forall status, unpacked !! "status" <> Some (JString status)) /\
      never_above (1 + Z.of_nat (length (idlist st))) out
  end.
Proof.
  revert st reports. induction lines as [|line rest IH]; intros st reports Hinv.
  - simpl. split_and!; [done|by rewrite app_nil_r|lia|apply never_above_nil; lia].
  - cbn [pull_lines]. pose proof (pull_line_cases line st reports Hinv) as Hline.
    destruct (pull_line json_Unmarshal line st) as [[[[e|] st1]|msg] out].
    + destruct Hline as (He & -> & ->). split_and!.
      * exists [], line, rest. split_and!; [done|done|done|by rewrite app_nil_r].
      * simpl. lia.
      * apply never_above_nil. lia.
    + destruct Hline as (Hh & Hinv1 & Hd & Hn).
      pose proof (IH st1 _ Hinv1) as Hrest.
      assert (Hbase : forall out',
        never_above (1 + Z.of_nat (length (idlist st1))) out' ->
        never_above (1 + Z.of_nat (length (idlist st))) (out ++ out')).
      { intros out' Hn'. apply never_above_app; [done|].
        by replace (1 + Z.of_nat (length (idlist st)) + rows_down out)
          with (1 + Z.of_nat (length (idlist st1))) by lia. }
      destruct (pull_lines json_Unmarshal rest st1) as [[[[e|] st2]|msg] out'].
      * destruct Hrest as ((l1 & bad & l2 & -> & Hl1 & He & Hinv2) & Hd' & Hn').
        split_and!; [|rewrite rows_down_app; lia|by apply Hbase].
        exists (line :: l1), bad, l2. split_and!; [done|by constructor|done|].
        by rewrite omap_report_cons, app_assoc.
      * destruct Hrest as (Hall & Hinv2 & Hd' & Hn').
        split_and!; [by constructor| |rewrite rows_down_app; lia|by apply Hbase].
        by rewrite omap_report_cons, app_assoc.
      * destruct Hrest as ((l1 & bad & l2 & u & -> & Hl1 & Hu & Hs) & Hn').
        split; [|by apply Hbase].
        exists (line :: l1), bad, l2, u. split_and!; [done|by constructor|done|done].
    + destruct Hline as (-> & u & Hu & Hs). split; [|apply never_above_nil; lia].
      by exists [], line, rest, u.
Qed.

Lemma PullInv_empty : PullInv (mkPullState ∅ []) [].
Proof.
  split_and!; [done|done| |done]. intros id. cbn [idlist idmap].
  split; [by intros ?%elem_of_nil|]. rewrite lookup_empty. by intros [??].
Qed.

(** X6: when [printPull] returns no error, its table maps every image id
    the stream reported to the status and the progress of the last line
    that reported it, and lists the ids once each, in the order of their
    first report; the listed ids are the ids of the table. *)
Theorem printPull_table reader st :
  (printPull json_Unmarshal reader).1 = Returns (None, st) ->
  let reports := omap (line_report json_Unmarshal) (read_lines (bytes reader)).1 in
  idmap st = list_to_map (reverse reports) /\
  idlist st = reverse (remove_dups (reverse reports.*1)) /\
  NoDup (idlist st) /\
  (forall id, id ∈ idlist st <-> is_Some (idmap st !! id)).
Proof.
  unfold printPull.
  pose proof (pull_lines_cases (read_lines (bytes reader)).1 _ _ PullInv_empty) as H.
  destruct (pull_lines json_Unmarshal _ _) as [[[[e|] st']|msg] out]; simpl; try done.
  intros [= Hread ->]. destruct H as (_ & (Hmap & Hlist & Hin & _) & _).
  split_and!; [done|done| |done].
  rewrite Hlist, reverse_Permutation. apply NoDup_remove_dups.
Qed.

(** X7: the only panic of [printPull] is the assertion on [status]: it
    panics exactly on streams with a line that decodes without a string
    under [status], every line before it having been handled; the loop
    that redraws the rows never indexes an id the table does not have. *)
Theorem printPull_panics reader :
  (exists msg, (printPull json_Unmarshal reader).1 = Panics msg) <->
  exists l1 line l2 unpacked,
    (read_lines (bytes reader)).1 = l1 ++ line :: l2 /\ Forall (handled json_Unmarshal) l1 /\
    json_Unmarshal line = inr unpacked /\
    forall status, unpacked !! "status" <> Some (JString status).
Proof.
  unfold printPull.
  pose proof (pull_lines_cases (read_lines (bytes reader)).1 _ _ PullInv_empty) as H.
  destruct (pull_lines json_Unmarshal _ _) as [[[[e|] st']|msg] out]; simpl.
  - destruct H as ((l1 & bad & l2 & Hl & Hl1 & He & _) & _). split; [by intros [??]|].
    intros (k1 & line & k2 & u & Hk & Hk1 & Hu & Hs). exfalso.
    rewrite Hl in Hk. clear Hl.
    revert k1 Hk Hk1. induction Hl1 as [|x l1 (ux & sx & Hux & Hsx) Hl1 IH]; intros k1 Hk Hk1.
    + destruct Hk1 as [|y k1 (uy & sy & Huy & Hsy) Hk1]; simplify_eq/=; congruence.
    + destruct Hk1 as [|y k1 Hy Hk1]; simplify_eq/=; [|by eapply IH].
      assert (ux = u) as -> by congruence. by destruct (Hs sx).
  - destruct H as (Hall & _). split; [by intros [??]|].
    intros (k1 & line & k2 & u & Hk & Hk1 & Hu & Hs). exfalso.
    rewrite Hk in Hall. apply Forall_app in Hall as [_ Hall].
    apply Forall_cons in Hall as [(ux & sx & Hux & Hsx) _].
    assert (ux = u) as -> by congruence. by destruct (Hs sx).
  - destruct H as ((l1 & bad & l2 & u & Hl & Hl1 & Hu & Hs) & _).
    split; [intros _|by eauto]. by exists l1, bad, l2, u.
Qed.

(** X8: by the counts it writes in its cursor-up sequences, [printPull]
    never moves the cursor above the row it started in, and when it
    returns the cursor is one row below the start for the empty line it
    begins with and one more for each image id of its table. *)
Theorem printPull_cursor reader :
  never_above 0 (printPull json_Unmarshal reader).2 /\
  forall e st, (printPull json_Unmarshal reader).1 = Returns (e, st) ->
    rows_down (printPull json_Unmarshal reader).2 = 1 + Z.of_nat (length (idlist st)).
Proof.
  unfold printPull.
  pose proof (pull_lines_cases (read_lines (bytes reader)).1 _ _ PullInv_empty) as H.
  destruct (pull_lines json_Unmarshal _ _) as [[[[e|] st']|msg] out]; simpl in *.
  - destruct H as (_ & Hd & Hn). split; [by apply never_above_cons|].
    intros e' st [= <- <-]. lia.
  - destruct H as (_ & _ & Hd & Hn). split; [by apply never_above_cons|].
    intros e' st [= <- <-]. lia.
  - destruct H as (_ & Hn). split; [by apply never_above_cons|done].
Qed.

(** ** One file from a container *)

Lemma seek_header_find base es broken :
  seek_header base es broken =
    match list_find (fun entry : string * string => entry.1 = base) es with
    | Some (_, entry) => inr (Some entry)
    | None =>
        match broken with
        | Some e => inl e
        | None => inr None
        end
    end.
Proof.
  induction es as [|entry es IH]; [done|]. cbn [seek_header list_find].
  case_decide; [done|]. rewrite IH.
  by destruct (list_find _ es) as [[??]|].
Qed.

(** X9: with a container created and the archive of the engine at hand,
    [CopyOneFileFromContainer] returns the content of the first member
    whose name is the last element of [fn]; without such a member it
    returns the error of the archive, or else the error that names [fn].
    When the forced removal is carried out and the id of its container
    was free, the containers of the engine are afterwards as they were. *)
Theorem CopyOneFileFromContainer_result F C d w fn :
  create_fault F = None ->
  copy_fault C = None ->
  let r := CopyOneFileFromContainer ToDocker strconv_Quote F C d w fn in
  r.1 =
    match list_find (fun entry : string * string => entry.1 = filepath.Base fn)
            (entries (copy_archive C)) with
    | Some (_, entry) => inr entry.2
    | None =>
        inl (default ("Could not find " +:+ strconv_Quote fn +:+ " in container")
               (broken (copy_archive C)))
    end /\
  (force_fault F = None ->
   containers w !! (Create ToDocker F d w).1.1 = None ->
   containers r.2 = containers w).
Proof.
  intros Hcreate Hcopy. unfold CopyOneFileFromContainer, Create, ContainerCreate.
  rewrite Hcreate. cbn [fst snd].
  set (id := "container-" +:+ pretty (serial w)).
  set (w1 := bump _).
  assert (Hw1 : containers w1 = <[id := mkContainer (ToDocker (config d) (tty d) (stdin d))]>
                                  (containers w)) by done.
  split.
  - unfold client_CopyFromContainer. rewrite Hcopy, Hw1, lookup_insert_eq.
    rewrite seek_header_find.
    destruct (list_find _ _) as [[??]|]; [done|].
    by destruct (broken (copy_archive C)).
  - intros Hforce Hfree. unfold Destroy, ContainerRemove.
    rewrite Hforce, Hw1, lookup_insert_eq. simpl.
    rewrite delete_insert_eq. by apply delete_id.
Qed.

End Coverage.

(** * Package layer *)

(** ** Cleaned paths *)

Lemma split_at_free sep s :
  Forall (fun piece => sep ∉ list_ascii_of_string piece) (filepath.split_at sep s).
Proof.
  induction s as [|c s IH]; simpl.
  - repeat constructor. by intros ?%elem_of_nil.
  - case_bool_decide as Hc; [constructor; [by intros ?%elem_of_nil|done]|].
    destruct IH as [|piece pieces Hp Hps]; repeat constructor.
    + intros [->|[]%elem_of_nil]%elem_of_cons; done.
    + intros [->|?]%elem_of_cons; done.
    + done.
Qed.

Lemma split_at_one sep s :
  sep ∉ list_ascii_of_string s -> filepath.split_at sep s = [s].
Proof.
  induction s as [|c s IH]; [done|]. simpl. intros H.
  rewrite bool_decide_eq_false_2 by (intros ->; apply H; by left).
  rewrite IH; [done|]. intros ?. apply H. by right.
Qed.

Lemma split_at_app sep a b :
  sep ∉ list_ascii_of_string a ->
  filepath.split_at sep (a +:+ String sep b) = a :: filepath.split_at sep b.
Proof.
  induction a as [|c a IH]; intros H.
  - unfold String.app. simpl. by rewrite bool_decide_eq_true_2.
  - unfold String.app. simpl. fold (String.app a (String sep b)).
    rewrite bool_decide_eq_false_2 by (intros ->; apply H; by left).
    rewrite IH; [done|]. intros ?. apply H. by right.
Qed.

Lemma split_at_join elems :
  elems <> [] -> Forall (fun e => "/"%char ∉ list_ascii_of_string e) elems ->
  filepath.split_at "/"%char (join "/" elems) = elems.
Proof.
  induction elems as [|e [|e' rest] IH]; intros Hne Hfree; [done| |].
  - simpl. apply split_at_one. by apply Forall_cons in Hfree as [? _].
  - apply Forall_cons in Hfree as [He Hrest].
    change (join "/" (e :: e' :: rest)) with (e +:+ String "/"%char (join "/" (e' :: rest))).
    rewrite split_at_app by done. f_equal. by apply IH.
Qed.

Lemma Forall_removelast {A} (P : A -> Prop) (l : list A) :
  Forall P l -> Forall P (removelast l).
Proof.
  induction 1 as [|x l Hx Hl IH]; [done|]. simpl. destruct l; [constructor|by constructor].
Qed.

Lemma clean_step_normal out elem :
  Forall filepath.normal out -> "/"%char ∉ list_ascii_of_string elem ->
  Forall filepath.normal (filepath.clean_step true out elem).
Proof.
  intros Hout Hfree. unfold filepath.clean_step.
  destruct (decide (elem = EmptyString)); [done|].
  destruct (decide (elem = ".")); [done|].
  destruct (decide (elem = "..")).
  - destruct (last out) as [top|] eqn:Hlast; [|done].
    destruct (decide (top = "..")) as [->|]; [|by apply Forall_removelast].
    apply last_Some in Hlast as [out' ->].
    apply Forall_app in Hout as [_ Htop]. apply Forall_cons in Htop as [Htop _].
    by destruct Htop as (_ & _ & ? & _).
  - apply Forall_app. split; [done|]. by repeat constructor.
Qed.

Lemma clean_steps_normal elems out :
  Forall filepath.normal out -> Forall (fun e => "/"%char ∉ list_ascii_of_string e) elems ->
  Forall filepath.normal (foldl (filepath.clean_step true) out elems).
Proof.
  revert out. induction elems as [|e elems IH]; intros out Hout Hfree; [done|].
  apply Forall_cons in Hfree as [He Hfree]. simpl. apply IH; [|done].
  by apply clean_step_normal.
Qed.

Lemma clean_steps_kept rooted elems out :
  Forall filepath.normal elems -> foldl (filepath.clean_step rooted) out elems = out ++ elems.
Proof.
  revert out. induction elems as [|e elems IH]; intros out Hn; [by rewrite app_nil_r|].
  apply Forall_cons in Hn as [(H1 & H2 & H3 & _) Hn]. simpl. rewrite IH by done.
  unfold filepath.clean_step. rewrite !decide_False by done. by rewrite <- app_assoc.
Qed.

Lemma clean_elems_normal path : Forall filepath.normal (filepath.clean_elems true path).
Proof. apply clean_steps_normal; [done|apply split_at_free]. Qed.

Lemma Clean_rooted path :
  filepath.IsAbs path = true ->
  filepath.Clean path = String "/"%char (join "/" (filepath.clean_elems true path)).
Proof. intros H. unfold filepath.Clean. by rewrite H. Qed.

(** [Clean] leaves the rooted paths it returns as they are. *)
Lemma Clean_Clean path :
  filepath.IsAbs path = true -> filepath.Clean (filepath.Clean path) = filepath.Clean path.
Proof.
  intros H. rewrite (Clean_rooted path H).
  set (elems := filepath.clean_elems true path).
  assert (Hn : Forall filepath.normal elems) by apply clean_elems_normal.
  rewrite Clean_rooted by done. do 2 f_equal.
  unfold filepath.clean_elems. simpl.
  change (filepath.clean_step true [] EmptyString) with (@nil string).
  destruct (decide (elems = [])) as [->|Hne]; [done|].
  rewrite split_at_join; [by apply (clean_steps_kept true elems [])|done|].
  eapply Forall_impl; [exact Hn|]. by intros e (_ & _ & _ & ?).
Qed.

Lemma IsAbs_Clean path :
  filepath.IsAbs path = true -> filepath.IsAbs (filepath.Clean path) = true.
Proof. intros H. by rewrite Clean_rooted. Qed.

Lemma IsAbs_app a b :
  a <> EmptyString -> filepath.IsAbs (a +:+ b) = filepath.IsAbs a.
Proof. by destruct a. Qed.

Lemma Join_rooted wd path :
  filepath.IsAbs wd = true ->
  filepath.Join [wd; path] = filepath.Clean (wd +:+ "/" +:+ path) /\
  filepath.IsAbs (wd +:+ "/" +:+ path) = true.
Proof.
  intros H. assert (wd <> EmptyString) by (by destruct wd).
  split; [|by rewrite IsAbs_app]. simpl. by rewrite decide_False.
Qed.

(** ** Layers *)

Section Layers.

Variable strconv_Quote : string -> string.
Variable Exists : layer.Layer -> layer.FS -> bool.
Variable Path : layer.Layer -> string.

Implicit Types (fs : layer.FS) (l : layer.Layer) (f : layer.Filesystem).

Lemma resolve_rooted fs path :
  filepath.IsAbs path = true -> filepath.Clean path = path -> layer.resolve fs path = path.
Proof. intros H1 H2. unfold layer.resolve. by rewrite H1. Qed.

Lemma resolve_is_rooted fs path :
  filepath.IsAbs (layer.cwd fs) = true ->
  filepath.IsAbs (layer.resolve fs path) = true /\
  filepath.Clean (layer.resolve fs path) = layer.resolve fs path.
Proof.
  intros Hcwd. unfold layer.resolve. destruct (filepath.IsAbs path) eqn:Hp.
  - split; [by apply IsAbs_Clean|by apply Clean_Clean].
  - destruct (Join_rooted (layer.cwd fs) path Hcwd) as [-> Habs].
    split; [by apply IsAbs_Clean|by apply Clean_Clean].
Qed.

Lemma qualified_rooted l :
  layer.rooted l ->
  filepath.IsAbs (layer.qualified l) = true /\
  filepath.Clean (layer.qualified l) = layer.qualified l.
Proof.
  intros [Habs _]. unfold layer.qualified.
  destruct (Join_rooted (layer.workingDir l) (layer.dirname l) Habs) as [-> Hj].
  split; [by apply IsAbs_Clean|by apply Clean_Clean].
Qed.

Lemma is_dir_lookup fs path :
  layer.is_dir fs path = true <-> layer.nodes fs !! path = Some true.
Proof.
  unfold layer.is_dir. destruct (layer.nodes fs !! path) as [[]|]; split; by intros.
Qed.

Lemma Abs_resolve fs path :
  layer.is_dir fs (layer.cwd fs) = true -> layer.Abs fs path = inr (layer.resolve fs path).
Proof.
  intros H. unfold layer.Abs, layer.resolve, layer.Getwd. rewrite H.
  by destruct (filepath.IsAbs path).
Qed.

Lemma Chdir_rooted fs dir :
  filepath.IsAbs dir = true -> filepath.Clean dir = dir ->
  layer.is_dir fs dir = true ->
  layer.Chdir fs dir = (None, layer.mkFS (layer.nodes fs) dir (layer.mounts fs)).
Proof.
  intros H1 H2 Hd%is_dir_lookup. unfold layer.Chdir.
  by rewrite resolve_rooted, Hd.
Qed.

(** [inChdir] where the process can go to the layer's working directory:
    the function runs there, and only its success brings the process
    back. *)
Lemma inChdir_runs l fun_ fs :
  layer.wf fs -> layer.rooted l -> layer.is_dir fs (layer.workingDir l) = true ->
  layer.inChdir l fun_ fs =
  match fun_ l (layer.mkFS (layer.nodes fs) (layer.workingDir l) (layer.mounts fs)) with
  | (Some e, fs') => (Some e, fs')
  | (None, fs') => layer.Chdir fs' (layer.cwd fs)
  end.
Proof.
  intros (_ & _ & Hcwd) [Habs Hclean] Hwd. unfold layer.inChdir, layer.Getwd.
  by rewrite Hcwd, Chdir_rooted.
Qed.

Lemma New_cases fs dirname wd l :
  layer.is_dir fs (layer.cwd fs) = true ->
  layer.New strconv_Quote fs dirname wd = inr l <->
  (dirname <> EmptyString /\ filepath.IsAbs dirname = false /\
   ".." ∉ filepath.SplitList dirname) /\
  l = layer.mkLayer dirname
        (layer.resolve fs (if decide (wd = EmptyString) then layer.cwd fs else wd)).
Proof.
  intros Hcwd. unfold layer.New, layer.Getwd. rewrite Hcwd.
  destruct (decide (dirname = EmptyString)) as [->|Hne]; [split; [done|by intros [[? _] _]]|].
  assert ((if decide (wd = EmptyString) then inr (layer.cwd fs) else inr wd)
          = (inr (if decide (wd = EmptyString) then layer.cwd fs else wd) : error + string))
    as -> by (by destruct (decide (wd = EmptyString))).
  destruct (filepath.IsAbs dirname); [split; [done|by intros [(_ & ? & _) _]]|].
  case_bool_decide as Hdd; [split; [done|by intros [(_ & _ & ?) _]]|].
  rewrite Abs_resolve by done. split; [by intros [= <-]|by intros [_ ->]].
Qed.

(** X10: with the process in an existing directory, [New] accepts a
    directory name exactly when it is not empty, not absolute and none of
    its colon-separated elements is [..]; the layer then has the name as
    given and the absolute cleaned working directory.  The elements are
    those of [filepath.SplitList], so a name with [..] between slashes is
    accepted. *)
Theorem New_accepts fs dirname wd l :
  layer.is_dir fs (layer.cwd fs) = true ->
  layer.New strconv_Quote fs dirname wd = inr l <->
  (dirname <> EmptyString /\ filepath.IsAbs dirname = false /\
   ".." ∉ filepath.SplitList dirname) /\
  l = layer.mkLayer dirname
        (layer.resolve fs (if decide (wd = EmptyString) then layer.cwd fs else wd)).
Proof. apply New_cases. Qed.

(** X11: the working directory of a layer that [New] returns, and the
    qualified path of the layer, are absolute paths that [Clean] leaves as
    they are. *)
Theorem New_rooted fs dirname wd l :
  layer.wf fs ->
  layer.New strconv_Quote fs dirname wd = inr l ->
  layer.rooted l /\
  filepath.IsAbs (layer.qualified l) = true /\
  filepath.Clean (layer.qualified l) = layer.qualified l.
Proof.
  intros (Habs & _ & Hcwd) [_ ->]%New_cases; [|done].
  assert (layer.rooted (layer.mkLayer dirname
            (layer.resolve fs (if decide (wd = EmptyString) then layer.cwd fs else wd))))
    as Hr by (by apply resolve_is_rooted).
  split; [done|by apply qualified_rooted].
Qed.

Lemma Create_fresh l fs :
  layer.wf fs -> layer.rooted l ->
  layer.is_dir fs (layer.workingDir l) = true ->
  layer.is_dir fs (filepath.Dir (layer.qualified l)) = true ->
  layer.nodes fs !! layer.qualified l = None ->
  layer.Create l fs =
  (None, layer.mkFS (<[layer.qualified l := true]> (layer.nodes fs)) (layer.cwd fs)
           (layer.mounts fs)).
Proof.
  intros Hwf Hl Hwd Hparent%is_dir_lookup Hfree.
  destruct (qualified_rooted l Hl) as [Hqa Hqc].
  unfold layer.Create. rewrite inChdir_runs by done.
  unfold layer.Mkdir. rewrite resolve_rooted by done. simpl. rewrite Hfree, Hparent.
  destruct Hwf as (Ha & Hc & Hcwd).
  rewrite Chdir_rooted; [done..|].
  apply is_dir_lookup. simpl. apply is_dir_lookup in Hcwd.
  rewrite lookup_insert_ne; [done|]. intros Heq. by rewrite Heq, Hcwd in Hfree.
Qed.

Lemma Remove_effect l fs :
  layer.wf fs -> layer.rooted l ->
  layer.is_dir fs (layer.workingDir l) = true ->
  layer.below (layer.qualified l) (layer.cwd fs) = false ->
  layer.Remove l fs =
  (None, layer.mkFS
           (filter (fun kv => negb (layer.below (layer.qualified l) kv.1)) (layer.nodes fs))
           (layer.cwd fs) (layer.mounts fs)).
Proof.
  intros Hwf Hl Hwd Hout.
  destruct (qualified_rooted l Hl) as [Hqa Hqc].
  unfold layer.Remove. rewrite inChdir_runs by done.
  unfold layer.RemoveAll. rewrite resolve_rooted by done. simpl.
  destruct Hwf as (Ha & Hc & Hcwd).
  rewrite Chdir_rooted; [done..|].
  apply is_dir_lookup. simpl. apply is_dir_lookup in Hcwd.
  apply map_lookup_filter_Some. split; [done|]. simpl. by rewrite Hout.
Qed.

(** X12: [Create] and then [Remove] bring the file system back.  Where
    the process and the layer's working directory are existing
    directories, the parent of the layer's path is a directory and nothing
    is at that path or below it, [Create] adds the directory of the layer
    and nothing else, leaves the process where it was, and [Remove] then
    gives the file system of the start. *)
Theorem Create_Remove l fs :
  layer.wf fs -> layer.rooted l ->
  layer.is_dir fs (layer.workingDir l) = true ->
  layer.is_dir fs (filepath.Dir (layer.qualified l)) = true ->
  (forall path, layer.below (layer.qualified l) path = true -> layer.nodes fs !! path = None) ->
  exists fs1,
    layer.Create l fs = (None, fs1) /\
    layer.nodes fs1 = <[layer.qualified l := true]> (layer.nodes fs) /\
    layer.cwd fs1 = layer.cwd fs /\
    layer.Remove l fs1 = (None, fs).
Proof.
  intros Hwf Hl Hwd Hparent Hfree.
  assert (Hq : layer.nodes fs !! layer.qualified l = None).
  { apply Hfree. unfold layer.below. by rewrite bool_decide_eq_true_2. }
  eexists. split; [by apply Create_fresh|]. split_and!; [done..|].
  pose proof Hwf as (Ha & Hc & Hcwd).
  assert (Hne : forall path, layer.is_dir fs path = true -> layer.qualified l <> path).
  { intros path Hp%is_dir_lookup Heq. by rewrite Heq, Hp in Hq. }
  rewrite Remove_effect; simpl.
  - destruct fs as [nodes cwd mounts]. simpl in *. f_equal. f_equal.
    assert (Hself : layer.below (layer.qualified l) (layer.qualified l) = true).
    { unfold layer.below. by rewrite bool_decide_eq_true_2. }
    rewrite map_filter_insert_False by (cbn [fst]; rewrite Hself; by intros []).
    rewrite delete_id by done. apply map_filter_id.
    intros path x Hx. simpl. destruct (layer.below _ path) eqn:Hb; [|done].
    by rewrite (Hfree _ Hb) in Hx.
  - split_and!; [done..|]. apply is_dir_lookup. simpl.
    rewrite lookup_insert_ne by (by apply Hne). by apply is_dir_lookup.
  - done.
  - apply is_dir_lookup. simpl.
    rewrite lookup_insert_ne by (by apply Hne). by apply is_dir_lookup.
  - destruct (layer.below _ _) eqn:Hb; [|done].
    apply Hfree in Hb. apply is_dir_lookup in Hcwd. by rewrite Hcwd in Hb.
Qed.

(** X13: [Remove] deletes the layer's path with everything below it and
    nothing else, and leaves the process where it was, provided the
    process is not inside the layer. *)
Theorem Remove_removes l fs :
  layer.wf fs -> layer.rooted l ->
  layer.is_dir fs (layer.workingDir l) = true ->
  layer.below (layer.qualified l) (layer.cwd fs) = false ->
  exists fs',
    layer.Remove l fs = (None, fs') /\
    layer.cwd fs' = layer.cwd fs /\ layer.mounts fs' = layer.mounts fs /\
    forall path,
      layer.nodes fs' !! path =
      if layer.below (layer.qualified l) path then None else layer.nodes fs !! path.
Proof.
  intros Hwf Hl Hwd Hout. eexists. split; [by apply Remove_effect|].
  split_and!; [done..|]. intros path. simpl.
  destruct (layer.below _ path) eqn:Hb.
  - apply map_lookup_filter_None. right. intros x _. cbn [fst]. rewrite Hb. by intros [].
  - destruct (layer.nodes fs !! path) as [x|] eqn:Hx.
    + apply map_lookup_filter_Some. split; [done|]. simpl. by rewrite Hb.
    + apply map_lookup_filter_None. by left.
Qed.

(** X14: a second [Remove] is no error and changes nothing, and so is a
    [Remove] of a layer that was never created: the layer's directory
    need not exist. *)
Theorem Remove_twice l fs :
  layer.wf fs -> layer.rooted l ->
  layer.is_dir fs (layer.workingDir l) = true ->
  layer.below (layer.qualified l) (layer.cwd fs) = false ->
  layer.below (layer.qualified l) (layer.workingDir l) = false ->
  (layer.Remove l fs).1 = None /\
  layer.Remove l (layer.Remove l fs).2 = (None, (layer.Remove l fs).2).
Proof.
  intros Hwf Hl Hwd Hout Hout'. rewrite Remove_effect by done. split; [done|]. simpl.
  pose proof Hwf as (Ha & Hc & Hcwd).
  rewrite Remove_effect; simpl.
  - f_equal. f_equal. apply map_filter_id. intros path x Hx.
    by apply map_lookup_filter_Some in Hx as [_ ?].
  - split_and!; [done..|]. apply is_dir_lookup. simpl.
    apply map_lookup_filter_Some. split; [by apply is_dir_lookup|]. simpl. by rewrite Hout.
  - done.
  - apply is_dir_lookup. simpl.
    apply map_lookup_filter_Some. split; [by apply is_dir_lookup|]. simpl. by rewrite Hout'.
  - done.
Qed.

(** X15: a [Create] that fails in [Mkdir], because something is at the
    layer's path or the parent of the path is no directory, returns the
    error with the process left in the layer's working directory: only a
    success goes back to the directory of the start. *)
Theorem Create_failure l fs :
  layer.wf fs -> layer.rooted l ->
  layer.is_dir fs (layer.workingDir l) = true ->
  layer.nodes fs !! layer.qualified l <> None \/
  layer.is_dir fs (filepath.Dir (layer.qualified l)) = false ->
  exists e,
    layer.Create l fs =
    (Some e, layer.mkFS (layer.nodes fs) (layer.workingDir l) (layer.mounts fs)).
Proof.
  intros Hwf Hl Hwd Hbad.
  destruct (qualified_rooted l Hl) as [Hqa Hqc].
  unfold layer.Create. rewrite inChdir_runs by done.
  unfold layer.Mkdir. rewrite resolve_rooted by done. simpl.
  destruct (layer.nodes fs !! layer.qualified l) as [x|] eqn:Hq; [by eexists|].
  destruct Hbad as [?|Hparent]; [done|].
  unfold layer.is_dir in Hparent.
  destruct (layer.nodes fs !! filepath.Dir (layer.qualified l)) as [[]|]; [done|by eexists..].
Qed.

Lemma Chdir_mounts fs dir : layer.mounts (layer.Chdir fs dir).2 = layer.mounts fs.
Proof. unfold layer.Chdir. by destruct (layer.nodes fs !! _) as [[]|]. Qed.

Lemma Mkdir_mounts fs name : layer.mounts (layer.Mkdir fs name).2 = layer.mounts fs.
Proof.
  unfold layer.Mkdir. destruct (layer.nodes fs !! _); [done|].
  by destruct (layer.nodes fs !! _) as [[]|].
Qed.

Lemma Create_mounts l fs : layer.mounts (layer.Create l fs).2 = layer.mounts fs.
Proof.
  unfold layer.Create, layer.inChdir. destruct (layer.Getwd fs); [done|].
  pose proof (Chdir_mounts fs (layer.workingDir l)) as H1.
  destruct (layer.Chdir fs (layer.workingDir l)) as [[e|] fs1]; [done|]. simpl in H1.
  pose proof (Mkdir_mounts fs1 (layer.qualified l)) as H2.
  destruct (layer.Mkdir fs1 (layer.qualified l)) as [[e|] fs2]; simpl in H2; [simpl; congruence|].
  rewrite Chdir_mounts. congruence.
Qed.

Lemma create_missing_mounts layers fs :
  layer.mounts (layer.create_missing Exists layers fs).2 = layer.mounts fs.
Proof.
  revert fs. induction layers as [|l layers IH]; intros fs; [done|]. simpl.
  destruct (Exists l fs); simpl; [by apply IH|].
  pose proof (Create_mounts l fs) as H.
  destruct (layer.Create l fs) as [[e|] fs1]; [done|]. rewrite IH. done.
Qed.

(** X16: [Mount] mounts at most once, and only when all goes well: either
    it returns an error or panics and the mounts are those of the start,
    or there are two layers or more, the work directory is not empty, the
    system call did not fail, [Mount] returns no error, the file system
    records the work directory, and the one new mount is at the mount
    point with the layers but the last as lower directories, the last as
    the upper one and the work directory.  It panics exactly when there is
    no layer. *)
Theorem Mount_mounts fault f work fs :
  let r := layer.Mount strconv_Quote Exists Path fault f work fs in
  ((r.1.1 <> Returns None /\ layer.mounts r.2 = layer.mounts fs) \/
   (exists lower upper,
      layer.Layers f = lower ++ [upper] /\ lower <> [] /\ work <> EmptyString /\
      fault = None /\ r.1.1 = Returns None /\ layer.workDir r.1.2 = work /\
      layer.mounts r.2 =
      layer.mounts fs ++ [(layer.Mountpoint f, layer.mount_data Path lower upper work)])) /\
  ((exists msg, r.1.1 = Panics msg) <-> layer.Layers f = []).
Proof.
  intros r. subst r. unfold layer.Mount.
  pose proof (create_missing_mounts (layer.Layers f) fs) as Hm.
  destruct (layer.create_missing Exists (layer.Layers f) fs) as [[e|] fs1] eqn:Hc;
    simpl in Hm.
  { split; [by left|]. split; [by intros [? ?]|]. intros Hl. rewrite Hl in Hc. done. }
  destruct (decide (length (layer.Layers f) = 1%nat)) as [Hone|Hlen].
  { split; [by left|]. split; [by intros [? ?]|]. intros Hl. by rewrite Hl in Hone. }
  destruct (last (layer.Layers f)) as [upper|] eqn:Hlast.
  2:{ apply last_None in Hlast. split; [by left|]. split; [done|by eexists]. }
  assert (Hnil : layer.Layers f <> []) by (intros Hl; by rewrite Hl in Hlast).
  apply last_Some in Hlast as [lower Hl].
  assert (Hlower : removelast (layer.Layers f) = lower).
  { rewrite Hl. by rewrite removelast_last. }
  rewrite Hlower.
  destruct (decide (work = EmptyString)) as [->|Hwork].
  { split; [by left|]. split; [by intros [? ?]|done]. }
  pose proof (Mkdir_mounts fs1 work) as Hmk.
  destruct (layer.Mkdir fs1 work) as [[e|] fs2]; simpl in Hmk.
  { split; [left; split; [done|simpl; congruence]|]. split; [by intros [? ?]|done]. }
  destruct fault as [e|]; simpl.
  { split; [left; split; [done|congruence]|]. split; [by intros [? ?]|done]. }
  split; [|split; [by intros [? ?]|done]].
  right. exists lower, upper. split_and!; try done.
  - intros ->. rewrite Hl in Hlen. done.
  - congruence.
Qed.

End Layers.

(** * The scenarios of the specification *)

Example split_crlf_pieces :
  split_crlf EmptyString = [EmptyString] /\
  split_crlf ("a" +:+ crlf +:+ "b") = ["a"; "b"] /\
  split_crlf ("a" +:+ crlf +:+ "b" +:+ crlf) = ["a"; "b"; EmptyString] /\
  split_crlf (String CR crlf) = [String CR EmptyString; EmptyString] /\
  split_crlf (String LF (String CR EmptyString)) = [String LF (String CR EmptyString)].
Proof. split_and!; reflexivity. Qed.

Example flat_Unmarshal_error_field :
  flat_Unmarshal ("{" +:+ quote "error" +:+ ":" +:+ quote "no space left" +:+ "}")
  = inr {[ "error" := JString "no space left" ]}.
Proof. reflexivity. Qed.

Example scenario_a :
  CheckCache env_FromDocker no_faults empty_world (session "") "run echo hi"
  = ((false, None), session "").
Proof. reflexivity. Qed.

Example scenario_b :
  CheckCache env_FromDocker no_faults cached_world (session "abc") "run echo hi"
  = ((true, None), session "img-2").
Proof. reflexivity. Qed.

Lemma CheckCache_hit_iff_witness :
  engine_answers no_faults cached_world (session "abc") [mkImageSummary "img-2" "abc"] /\
  (CheckCache env_FromDocker no_faults cached_world (session "abc") "run echo hi").1.1 = true.
Proof.
  assert (H : engine_answers no_faults cached_world (session "abc")
                [mkImageSummary "img-2" "abc"]).
  { split; [reflexivity|]. intros img Hin _.
    apply list_elem_of_singleton in Hin as ->. eexists. reflexivity. }
  split; [exact H|].
  destruct (CheckCache_hit_iff env_FromDocker no_faults cached_world (session "abc")
              "run echo hi") as [Hanswered _].
  destruct (Hanswered _ H) as [Hiff _].
  apply Hiff. split; [reflexivity|]. split; [discriminate|].
  eexists _, _. split; [left|]. split; [reflexivity|]. split; reflexivity.
Defined.

(** The claim C1 fails when the engine fails: with caching enabled and a
    resulting image, a listing the engine does not answer ends the lookup
    with an error, not with [(false, nil)]; and an inspection it does not
    answer ends it without a hit although a later image of the listing has
    the parent and the comment asked for. *)
Lemma CheckCache_engine_failure :
  CheckCache env_FromDocker list_fails cached_world (session "abc") "run echo hi"
    = ((false, Some daemon_down), session "abc") /\
  ImageList inspect_fails two_children
    = inr [mkImageSummary "img-1" "abc"; mkImageSummary "img-2" "abc"] /\
  cache_match inspect_fails two_children (session "abc") "run echo hi"
    (mkImageSummary "img-2" "abc")
    (mkImageInspect "img-2" "run echo hi" ("abc", ["PATH=/bin"])) /\
  CheckCache env_FromDocker inspect_fails two_children (session "abc") "run echo hi"
    = ((false, Some daemon_down), session "abc").
Proof. split_and!; [reflexivity|reflexivity|by split_and!|reflexivity]. Qed.

Example commit_without_hook :
  (Commit env_ToDocker fst quote no_faults (session "abc") empty_world "run echo hi" None).1
  = (None, session "image-1").
Proof. reflexivity. Qed.

Example commit_failing_hook :
  (Commit env_ToDocker fst quote no_faults (session "abc") empty_world "run make"
     (Some (RunHook quote (exits 2) (session "abc")))).1
  = (Some ("Command exited with status 2 for container " +:+ quote "container-0"),
     session "abc").
Proof. reflexivity. Qed.

Lemma Commit_all_or_nothing_witness :
  let r := Commit env_ToDocker fst quote no_faults (session "abc") empty_world
             "run echo hi" None in
  r.1 = (None, session "image-1") /\
  Image (config r.1.2) = "image-1" /\
  exists parent,
    images r.2 =
      [mkImageRecord "image-1" parent "run echo hi" ("abc", ["PATH=/bin"])].
Proof.
  exact (Commit_all_or_nothing env_ToDocker fst quote no_faults (session "abc")
           empty_world "run echo hi" None "container-0" one_container
           EmptyString None one_container "image-1" None
           (ContainerCommit fst no_faults one_container "container-0"
              ("abc", ["PATH=/bin"]) "run echo hi").2
           None
           (ContainerRemove no_faults
              (ContainerCommit fst no_faults one_container "container-0"
                 ("abc", ["PATH=/bin"]) "run echo hi").2 "container-0" false).2
           eq_refl eq_refl eq_refl eq_refl).
Defined.

Lemma Destroy_absent_witness :
  Destroy no_faults empty_world "container-0"
  = (Some "No such container: container-0", empty_world).
Proof. exact (Destroy_absent no_faults empty_world "container-0" eq_refl). Defined.

(** The claim C3 fails: the first [Destroy] removes the container, the
    second returns the engine's error. *)
Lemma Destroy_twice_fails :
  (Destroy no_faults one_container "container-0").1 = None /\
  (Destroy no_faults (Destroy no_faults one_container "container-0").2 "container-0").1
    = Some "No such container: container-0".
Proof. split; reflexivity. Qed.

Lemma Commit_container_gone_witness :
  (Commit env_ToDocker fst quote commit_fails (session "abc") empty_world
     "run echo hi" None).1.1 = Some ("Error during commit: " +:+ daemon_down) /\
  containers (Commit env_ToDocker fst quote commit_fails (session "abc") empty_world
                "run echo hi" None).2 !! "container-0" = None.
Proof.
  split; [reflexivity|].
  exact (Commit_container_gone env_ToDocker fst quote commit_fails (session "abc")
           empty_world "run echo hi" None "container-0" one_container
           eq_refl (or_intror eq_refl)).
Defined.

(** The claim C4 fails when the engine is lost after the creation: the
    commit fails, the forced removal of the deferred cleanup fails too and
    its error is dropped, and the container is still there. *)
Lemma Commit_container_left :
  (Create env_ToDocker engine_lost (session "abc") empty_world).1
    = ("container-0", None) /\
  (Commit env_ToDocker fst quote engine_lost (session "abc") empty_world
     "run echo hi" None).1 = (Some ("Error during commit: " +:+ daemon_down), session "abc") /\
  containers (Commit env_ToDocker fst quote engine_lost (session "abc") empty_world
                "run echo hi" None).2 !! "container-0"
    = Some (mkContainer ("abc", ["PATH=/bin"])).
Proof. split_and!; reflexivity. Qed.

Example scenario_c :
  map (fun m => (tar.Name (tar.header m), tar.Size (tar.header m), tar.payload m))
    (tar.members (build (import_ok progress_line) "img1" EmptyString).2)
  = [("img1.json", 45,
      "{" +:+ quote "config" +:+ ":{" +:+ quote "Env" +:+ ":[" +:+ quote "PATH=/bin"
      +:+ "]}," +:+ quote "os" +:+ ":" +:+ quote "linux" +:+ "}");
     ("repositories", 26,
      "{" +:+ quote "img1" +:+ ":{" +:+ quote "latest" +:+ ":" +:+ quote "img1" +:+ "}}");
     ("manifest.json", 72,
      "[{" +:+ quote "Config" +:+ ":" +:+ quote "img1.json" +:+ ","
      +:+ quote "Layers" +:+ ":[" +:+ quote "img1/layer.tar" +:+ "],"
      +:+ quote "RepoTags" +:+ ":[" +:+ quote "img1" +:+ "]}]")].
Proof. reflexivity. Qed.

Lemma CopyToContainer_archive_witness :
  let archive := tar.members (build (import_ok progress_line) "img1" EmptyString).2 in
  map (fun m => tar.Name (tar.header m)) archive
    = ["img1.json"; "repositories"; "manifest.json"] /\
  Forall (fun m => tar.Size (tar.header m) = Z.of_nat (String.length (tar.payload m)))
    archive /\
  map tar.payload archive =
    [json_Marshal quote
       (JObject [("config", JObject [("Env", JArray [JString "PATH=/bin"])]);
                 ("os", JString "linux")]);
     json_Marshal quote (JObject [("img1", JObject [("latest", JString "img1")])]);
     json_Marshal quote
       (JArray [JObject [("Config", JString "img1.json");
                         ("Layers", JArray [JString "img1/layer.tar"]);
                         ("RepoTags", JArray [JString "img1"])]])] /\
  tar.nb (build (import_ok progress_line) "img1" EmptyString).2 = 0.
Proof.
  exact (CopyToContainer_archive env_ToImage quote env_Marshal_image flat_Unmarshal
           (import_ok progress_line) (session "abc") empty_world "img1" 0 EmptyString
           _ eq_refl eq_refl eq_refl).
Defined.

Example import_succeeds :
  (build (import_ok progress_line) "img1" EmptyString).1.1 = (None, session "img1").
Proof. reflexivity. Qed.

Example import_reports_error :
  (build (import_ok (progress_line +:+ crlf +:+
                     "{" +:+ quote "error" +:+ ":" +:+ quote "no space left" +:+ "}"))
     "img1" EmptyString).1.1
  = (Some "no space left", session "abc").
Proof. reflexivity. Qed.

Lemma CopyToContainer_import_witness :
  (build (import_ok progress_line) "img1" EmptyString).1.1.1 = None /\
  (build (import_ok progress_line) "img1" EmptyString).1.1.2 = session "img1".
Proof.
  assert (Hpieces : forall body, import_body (import_ok progress_line) = inr body ->
            Forall (fun piece => piece <> EmptyString) (split_crlf body)).
  { intros body [= <-]. change (split_crlf progress_line) with [progress_line].
    by repeat constructor. }
  destruct (CopyToContainer_import env_ToImage quote env_Marshal_image flat_Unmarshal
              (import_ok progress_line) (session "abc") empty_world "img1" 0 EmptyString
              _ eq_refl eq_refl eq_refl Hpieces) as (_ & Hiff & _ & Hset & _).
  assert (Hnone : (build (import_ok progress_line) "img1" EmptyString).1.1.1 = None).
  { apply Hiff. split; [reflexivity|]. exists progress_line. split; [reflexivity|].
    repeat constructor. eexists. split; [reflexivity|]. intros res. discriminate. }
  split; [exact Hnone|]. exact (Hset Hnone).
Defined.

(** The claim C6 fails on a response that is not JSON: the import call
    succeeds and no line of the response is an object with an [error]
    field, but the line does not decode and the build fails with the
    error of the decoder. *)
Lemma CopyToContainer_import_plain_text :
  import_transport (import_ok "Loaded image") = None /\
  split_crlf "Loaded image" = ["Loaded image"] /\
  flat_Unmarshal "Loaded image"
    = inl "invalid character 'L' looking for beginning of value" /\
  (build (import_ok "Loaded image") "img1" EmptyString).1.1
    = (Some "invalid character 'L' looking for beginning of value", session "abc").
Proof. split_and!; reflexivity. Qed.

(** A response that ends with CR LF, as the messages of the engine do, has
    an empty last piece; the empty piece does not decode, and the build
    fails although the one line of the response reports no error. *)
Example import_trailing_crlf :
  split_crlf (progress_line +:+ crlf) = [progress_line; EmptyString] /\
  flat_Unmarshal progress_line = inr {[ "status" := JString "Loaded image" ]} /\
  (build (import_ok (progress_line +:+ crlf)) "img1" EmptyString).1.1
    = (Some "unexpected end of JSON input", session "abc").
Proof. split_and!; reflexivity. Qed.

Example scenario_d :
  RunHook quote (exits 0) (session "abc") "container-0" one_container
  = ((EmptyString, None), one_container).
Proof. reflexivity. Qed.

Example scenario_e :
  (RunHook quote (exits 2) (session "abc") "container-0" one_container).1.2
  = Some ("Command exited with status 2 for container " +:+ quote "container-0").
Proof. reflexivity. Qed.

Lemma RunHook_exit_status_witness :
  (RunHook quote (exits 2) (session "abc") "container-0" one_container).1
  = (EmptyString, Some (exit_error quote 2 "container-0")).
Proof.
  exact (RunHook_exit_status quote (exits 2) (session "abc") "container-0" one_container 2
           eq_refl (fun _ => eq_refl) eq_refl eq_refl).
Defined.

(** * The rest of the executor and the layers, on examples *)

Example Clean_cases :
  filepath.Clean "a//b/../c/." = "a/c" /\ filepath.Clean "/../a" = "/a" /\
  filepath.Clean EmptyString = "." /\ filepath.Clean "../../a/.." = "../.." /\
  filepath.Clean "/" = "/" /\ filepath.Clean "a/b/../../.." = ".." /\
  filepath.Base "/etc/hostname" = "hostname" /\ filepath.Base "a/b/" = "b" /\
  filepath.Dir "/tmp/w/quux" = "/tmp/w" /\ filepath.Dir "/a" = "/".
Proof. split_and!; reflexivity. Qed.

Example pull_of_two_layers :
  printPull line_Unmarshal (mkReader pull_text None)
  = (Returns (None, mkPullState {[ "a1" := ("Download complete", EmptyString);
                                  "b2" := ("Pulling fs layer", EmptyString) ]} ["a1"; "b2"]),
     [Newline;
      CursorUp 0; Row "a1 Pulling fs layer ";
      CursorUp 1; Row "a1 Pulling fs layer "; Row "b2 Pulling fs layer ";
      CursorUp 2; Row "a1 Download complete "; Row "b2 Pulling fs layer "]).
Proof. reflexivity. Qed.



Lemma Commit_containers_unchanged_witness :
  containers (Commit env_ToDocker fst quote no_faults (session "abc") empty_world
                "run echo hi" None).2 = containers empty_world.
Proof.
  exact (Commit_containers_unchanged env_ToDocker fst quote no_faults (session "abc")
           empty_world "run echo hi" None "container-0" one_container
           eq_refl eq_refl (fun _ _ => eq_refl) (or_introl eq_refl)).
Defined.

Lemma printPull_ignores_tail_witness :
  printPull line_Unmarshal (mkReader (pull_text +:+ "{" +:+ quote "status") None)
  = printPull line_Unmarshal (mkReader pull_text None).
Proof.
  apply (printPull_ignores_tail line_Unmarshal pull_text ("{" +:+ quote "status") None).
  apply (bool_decide_unpack _). vm_compute. exact I.
Defined.

Lemma printPull_table_witness :
  let st := mkPullState {[ "a1" := ("Download complete", EmptyString);
                           "b2" := ("Pulling fs layer", EmptyString) ]} ["a1"; "b2"] in
  let reports := omap (line_report line_Unmarshal) (read_lines pull_text).1 in
  idmap st = list_to_map (reverse reports) /\
  idlist st = reverse (remove_dups (reverse reports.*1)) /\
  NoDup (idlist st) /\
  (forall id, id ∈ idlist st <-> is_Some (idmap st !! id)).
Proof.
  exact (printPull_table line_Unmarshal (mkReader pull_text None) _ eq_refl).
Defined.

Lemma CopyOneFileFromContainer_result_witness :
  (CopyOneFileFromContainer env_ToDocker quote no_faults hostname_archive (session "abc")
     empty_world "/etc/hostname").1 = inr "box".
Proof.
  exact (proj1 (CopyOneFileFromContainer_result env_ToDocker quote no_faults
                  hostname_archive (session "abc") empty_world "/etc/hostname"
                  eq_refl eq_refl)).
Defined.

Lemma disk_wf : layer.wf disk.
Proof. split_and!; reflexivity. Qed.

Lemma disk_free path :
  layer.below (layer.qualified quux) path = true -> layer.nodes disk !! path = None.
Proof.
  intros Hb. apply eq_None_not_Some. intros [x Hx].
  apply elem_of_list_to_map_2 in Hx.
  repeat (apply elem_of_cons in Hx as [[= -> ->]|Hx]; [by vm_compute in Hb|]).
  by apply elem_of_nil in Hx.
Qed.

Lemma New_accepts_witness :
  layer.New quote disk "../x" "/tmp/w" = inr (layer.mkLayer "../x" "/tmp/w").
Proof.
  apply (proj2 (New_accepts quote disk "../x" "/tmp/w" _ eq_refl)).
  split; [split_and!; [discriminate|reflexivity|]|reflexivity].
  apply (bool_decide_unpack _). vm_compute. exact I.
Defined.

Lemma New_rooted_witness :
  layer.New quote disk "quux" EmptyString = inr (layer.mkLayer "quux" "/tmp") /\
  layer.rooted (layer.mkLayer "quux" "/tmp") /\
  filepath.IsAbs (layer.qualified (layer.mkLayer "quux" "/tmp")) = true /\
  filepath.Clean (layer.qualified (layer.mkLayer "quux" "/tmp"))
  = layer.qualified (layer.mkLayer "quux" "/tmp").
Proof.
  split; [reflexivity|].
  exact (New_rooted quote disk "quux" EmptyString (layer.mkLayer "quux" "/tmp")
           disk_wf eq_refl).
Defined.

Lemma Create_Remove_witness :
  exists fs1,
    layer.Create quux disk = (None, fs1) /\
    layer.nodes fs1 = <[layer.qualified quux := true]> (layer.nodes disk) /\
    layer.cwd fs1 = layer.cwd disk /\
    layer.Remove quux fs1 = (None, disk).
Proof.
  apply (Create_Remove quux disk disk_wf); [split; reflexivity|reflexivity..|].
  exact disk_free.
Defined.

Lemma Remove_removes_witness :
  exists fs',
    layer.Remove quux (layer.Create quux disk).2 = (None, fs') /\
    layer.cwd fs' = "/tmp" /\ layer.mounts fs' = [] /\
    forall path,
      layer.nodes fs' !! path =
      if layer.below (layer.qualified quux) path then None
      else layer.nodes (layer.Create quux disk).2 !! path.
Proof.
  apply (Remove_removes quux (layer.Create quux disk).2);
    [split_and!; reflexivity|split; reflexivity|reflexivity..].
Defined.

Lemma Remove_twice_witness :
  (layer.Remove quux (layer.Create quux disk).2).1 = None /\
  layer.Remove quux (layer.Remove quux (layer.Create quux disk).2).2
  = (None, (layer.Remove quux (layer.Create quux disk).2).2).
Proof.
  apply (Remove_twice quux (layer.Create quux disk).2);
    [split_and!; reflexivity|split; reflexivity|reflexivity..].
Defined.

Lemma Create_failure_witness :
  exists e,
    layer.Create (layer.mkLayer "a/b" "/tmp/w") disk =
    (Some e, layer.mkFS (layer.nodes disk) "/tmp/w" (layer.mounts disk)).
Proof.
  apply (Create_failure (layer.mkLayer "a/b" "/tmp/w") disk disk_wf);
    [split; reflexivity|reflexivity|right; reflexivity].
Defined.

Example Create_leaves_process_in_workingDir :
  layer.Create (layer.mkLayer "a/b" "/tmp/w") disk
  = (Some "mkdir /tmp/w/a/b: no such file or directory",
     layer.mkFS (layer.nodes disk) "/tmp/w" []).
Proof. reflexivity. Qed.

Example New_escapes_workingDir :
  layer.qualified (layer.mkLayer "../x" "/tmp/w") = "/tmp/x".
Proof. reflexivity. Qed.

(** The table of [TestNew], in the file system [disk]. *)
Example TestNew_table :
  layer.New quote disk ".." EmptyString
    = inl ("Cannot use .. in path names: " +:+ quote "..") /\
  layer.New quote disk ".." ".."
    = inl ("Cannot use .. in path names: " +:+ quote "..") /\
  layer.New quote disk "." ".." = inr (layer.mkLayer "." "/") /\
  layer.New quote disk "." EmptyString = inr (layer.mkLayer "." "/tmp") /\
  layer.New quote disk EmptyString EmptyString = inl "Dirname may not be empty".
Proof. split_and!; reflexivity. Qed.
